(** * The document assembler of [app.py]

    A shallow embedding of [add_senior_student_list], [add_first_year_table]
    and [generate_student_document], with the part of the python-docx object
    model these functions drive, and the properties of the assembled
    document.

    Modelling choices.
    - A student record is a JSON object whose values are strings: a finite
      map from keys to strings.  [student[k]] raises [KeyError] on a missing
      key, [student.get(k, d)] does not.
    - Python compares [str] values by code point; on UTF-8 encoded text this
      is the byte-wise lexicographic order, which is the order
      [String_as_OT.compare] computes on Rocq strings.
    - The python-docx document is a store of blocks.  [doc.add_paragraph],
      [doc.add_heading] and [doc.add_table] append a block and hand back a
      reference to it; later assignments through that reference update the
      block in place.  An exception aborts the function: no document is
      returned.
    - A string is the sequence of its UTF-8 bytes.  The text of a run goes
      through python-docx to lxml, which raises [ValueError] on text that
      XML cannot hold (a control character other than tab, line feed and
      carriage return, or one of the code points U+FFFE and U+FFFF).
    - [doc.save] into the byte stream is not modelled: the function returns
      the document it built. *)

From Stdlib Require Import Strings.Ascii Structures.OrdersEx.
From stdpp Require Import base option list strings gmap sorting pretty.

(** ** Records and errors *)

Abbreviation student := (gmap string string).

Inductive error : Type :=
  | KeyError (key : string)
  | IndexError
  | ValueError.

(** ** The python-docx object model *)

Record RGBColor := RGB { rgb_r : N; rgb_g : N; rgb_b : N }.

(** A run; [run_rgb = None] is a run that inherits the theme colour. *)
Record run := Run {
  run_text : string;
  run_bold : option bool;
  run_rgb : option RGBColor }.

Inductive WD_TAB_ALIGNMENT := LEFT | CENTER.

Record tab_stop := TabStop {
  tab_position : Z;
  tab_alignment : WD_TAB_ALIGNMENT }.

Inductive style_name :=
  | Normal
  | Title
  | Heading (level : nat)
  | TableGrid.

Record paragraph := Paragraph {
  p_style : style_name;
  p_runs : list run;
  p_left_indent : option Z;
  p_first_line_indent : option Z;
  p_tab_stops : list tab_stop }.

(** A table cell is represented by its first paragraph, the only one the
    program touches. *)
Record table := Table {
  t_style : option style_name;
  t_autofit : bool;
  t_allow_autofit : option bool;
  t_widths : list (option Z);
  t_rows : list (list paragraph) }.

Inductive block :=
  | BParagraph (p : paragraph)
  | BTable (t : table).

Record document := Document {
  normal_font_name : option string;
  normal_font_size : option Z;
  body : list block }.

Global Instance RGBColor_eq_dec : EqDecision RGBColor.
Proof. solve_decision. Defined.
Global Instance run_eq_dec : EqDecision run.
Proof. solve_decision. Defined.
Global Instance style_name_eq_dec : EqDecision style_name.
Proof. solve_decision. Defined.

(** Lengths are English Metric Units.  [Inches(x)] is [int(x * 914400)];
    every argument in the program is a multiple of a hundredth, and is given
    here in hundredths.  [Pt(x)] is [int(x * 12700)]. *)
Definition Inches (hundredths : Z) : Z := hundredths * 9144.
Definition Pt (points : Z) : Z := points * 12700.

Definition black : RGBColor := RGB 0 0 0.

Definition tab : string := String (Ascii.ascii_of_nat 9) EmptyString.

(** ** The monad of the program: a document store, and exceptions *)

Definition M (A : Type) : Type := document → error + A * document.

Global Instance M_ret : MRet M := λ A x d, inr (x, d).
Global Instance M_bind : MBind M := λ A B f m d,
  match m d with
  | inl e => inl e
  | inr (x, d') => f x d'
  end.

Definition raise {A} (e : error) : M A := λ _, inl e.

(** [for x in l: f x] *)
Fixpoint for_each {A} (l : list A) (f : A → M ()) : M () :=
  match l with
  | [] => mret ()
  | x :: l => f x;; for_each l f
  end.

(** [for i, x in enumerate(l, start): f i x] *)
Fixpoint for_enumerate {A} (start : nat) (l : list A) (f : nat → A → M ()) : M () :=
  match l with
  | [] => mret ()
  | x :: l => f start x;; for_enumerate (S start) l f
  end.

(** A loop that updates a local variable [s]. *)
Fixpoint for_fold {A S} (l : list A) (s : S) (f : S → A → M S) : M S :=
  match l with
  | [] => mret s
  | x :: l => s' ← f s x; for_fold l s' f
  end.

(** [[f x for x in l]], evaluated left to right. *)
Fixpoint for_map {A B} (l : list A) (f : A → M B) : M (list B) :=
  match l with
  | [] => mret []
  | x :: l => y ← f x; ys ← for_map l f; mret (y :: ys)
  end.

(** [student[key]] *)
Definition subscript (s : student) (key : string) : M string :=
  match s !! key with
  | Some v => mret v
  | None => raise (KeyError key)
  end.

(** ** References into the store *)

(** A paragraph lives in the body, or in a cell of a table of the body. *)
Inductive paragraph_ref :=
  | InBody (h : nat)
  | InCell (t row col : nat).

Definition run_ref : Type := paragraph_ref * nat.

Definition set_body (b : list block) (d : document) : document :=
  Document (normal_font_name d) (normal_font_size d) b.

Definition append_block (b : block) : M nat := λ d,
  inr (length (body d), set_body (body d ++ [b]) d).

Definition update_table {A} (t : nat) (f : table → error + A * table) : M A := λ d,
  match body d !! t with
  | Some (BTable tb) =>
      match f tb with
      | inl e => inl e
      | inr (a, tb') => inr (a, set_body (<[t := BTable tb']> (body d)) d)
      end
  | _ => inl IndexError
  end.

Definition set_rows (rows : list (list paragraph)) (tb : table) : table :=
  Table (t_style tb) (t_autofit tb) (t_allow_autofit tb) (t_widths tb) rows.

Definition update_paragraph {A} (r : paragraph_ref)
    (f : paragraph → error + A * paragraph) : M A :=
  match r with
  | InBody h => λ d,
      match body d !! h with
      | Some (BParagraph p) =>
          match f p with
          | inl e => inl e
          | inr (a, p') => inr (a, set_body (<[h := BParagraph p']> (body d)) d)
          end
      | _ => inl IndexError
      end
  | InCell t row col =>
      update_table t (λ tb,
        match t_rows tb !! row with
        | Some cells =>
            match cells !! col with
            | Some p =>
                match f p with
                | inl e => inl e
                | inr (a, p') =>
                    inr (a, set_rows (<[row := <[col := p']> cells]> (t_rows tb)) tb)
                end
            | None => inl IndexError
            end
        | None => inl IndexError
        end)
  end.

Definition modify_paragraph (r : paragraph_ref) (f : paragraph → paragraph) : M () :=
  update_paragraph r (λ p, inr ((), f p)).

Definition modify_table (t : nat) (f : table → table) : M () :=
  update_table t (λ tb, inr ((), f tb)).

Definition set_runs (rs : list run) (p : paragraph) : paragraph :=
  Paragraph (p_style p) rs (p_left_indent p) (p_first_line_indent p) (p_tab_stops p).

Definition update_run (r : run_ref) (f : run → run) : M () :=
  update_paragraph r.1 (λ p,
    match p_runs p !! r.2 with
    | Some x => inr ((), set_runs (<[r.2 := f x]> (p_runs p)) p)
    | None => inl IndexError
    end).

(** ** Text that a run accepts

    [run.text = text] hands the text to python-docx's
    [_RunContentAppender]: the characters are buffered one by one; a tab
    flushes the buffer and adds a [w:tab] element, a carriage return or a
    line feed flushes it and adds a [w:br] element, and the end of the text
    flushes it.  Flushing a buffer that is not empty adds a [w:t] element and
    sets its text through lxml, which encodes it to UTF-8 and raises
    [ValueError] unless [_is_valid_xml_utf8] accepts the bytes. *)

Definition code (c : ascii) : N := N_of_ascii c.

(** [xmlIsChar_ch] of libxml2, on a byte below 0x80: tab, line feed,
    carriage return, and everything from the space on. *)
Definition xmlIsChar_ch (c : ascii) : bool :=
  bool_decide (code c = 9 ∨ code c = 10 ∨ code c = 13 ∨ 32 ≤ code c)%N.

(** Three bytes that lxml refuses: the encodings of U+FFFE and U+FFFF, and
    whatever lies between those of U+D800 and U+DFFF. *)
Definition forbidden (c0 c1 c2 : ascii) : bool :=
  let next3 := (code c0 * 65536 + code c1 * 256 + code c2)%N in
  bool_decide (next3 = 0xEFBFBE ∨ next3 = 0xEFBFBF ∨
               (0xEDA080 ≤ next3 ∧ next3 ≤ 0xEDBFBF))%N.

(** [_is_valid_xml_utf8] of lxml: a byte with its high bit set is checked
    with the two bytes that follow it, when there are two; any other byte
    must be an XML character. *)
Fixpoint is_valid_xml_utf8 (s : string) : bool :=
  match s with
  | EmptyString => true
  | String c r =>
      (if bool_decide (128 ≤ code c)%N then
         match r with
         | String c1 (String c2 _) => negb (forbidden c c1 c2)
         | _ => true
         end
       else xmlIsChar_ch c)
      && is_valid_xml_utf8 r
  end.

(** The characters at which [_RunContentAppender] flushes its buffer. *)
Definition flushes (c : ascii) : bool :=
  bool_decide (code c = 9 ∨ code c = 10 ∨ code c = 13)%N.

(** [_RunContentAppender.add_text], with [bfr] the buffer: whether every
    flush is accepted. *)
Fixpoint add_text (bfr text : string) : bool :=
  match text with
  | EmptyString => is_valid_xml_utf8 bfr
  | String c r =>
      if flushes c then is_valid_xml_utf8 bfr && add_text EmptyString r
      else add_text (bfr +:+ String c EmptyString) r
  end.

(** [run.text = text] does not raise. *)
Definition xml_compatible (text : string) : bool := add_text EmptyString text.

(** ** The python-docx calls the program makes *)

(** [docx.Document()] *)
Definition docx_Document : document := Document None None [].

(** [style = doc.styles['Normal'].font; style.name = n; style.size = s] *)
Definition set_normal_font (n : string) (s : Z) : M () := λ d,
  inr ((), Document (Some n) (Some s) (body d)).

Definition empty_paragraph (st : style_name) : paragraph :=
  Paragraph st [] None None [].

(** [p.add_run(text)]: the run is added, and its text set. *)
Definition add_run (p : paragraph_ref) (text : string) : M run_ref :=
  update_paragraph p (λ q,
    if xml_compatible text then
      inr ((p, length (p_runs q)), set_runs (p_runs q ++ [Run text None None]) q)
    else inl ValueError).

(** [doc.add_paragraph(text, style)]: the paragraph gets a run, by
    [add_run], only when [text] is not empty. *)
Definition add_paragraph (text : string) (st : style_name) : M paragraph_ref :=
  h ← append_block (BParagraph (empty_paragraph st));
  (if decide (text = "") then mret ()
   else add_run (InBody h) text ≫= λ _, mret ());;
  mret (InBody h).

(** [doc.add_heading(text, level)]: a paragraph of style [Title] (level 0)
    or [Heading level], built by [add_paragraph]. *)
Definition add_heading (text : string) (level : nat) : M paragraph_ref :=
  if decide (level ≤ 9) then
    add_paragraph text (if decide (level = 0) then Title else Heading level)
  else raise ValueError.

(** [p.runs[i]] *)
Definition runs_at (p : paragraph_ref) (i : nat) : M run_ref :=
  update_paragraph p (λ q,
    match p_runs q !! i with
    | Some _ => inr ((p, i), q)
    | None => inl IndexError
    end).

(** [run.font.color.rgb = c] and [run.bold = b] *)
Definition set_rgb (r : run_ref) (c : RGBColor) : M () :=
  update_run r (λ x, Run (run_text x) (run_bold x) (Some c)).
Definition set_bold (r : run_ref) (b : bool) : M () :=
  update_run r (λ x, Run (run_text x) (Some b) (run_rgb x)).

(** Paragraph format. *)
Definition set_left_indent (p : paragraph_ref) (v : Z) : M () :=
  modify_paragraph p (λ q,
    Paragraph (p_style q) (p_runs q) (Some v) (p_first_line_indent q) (p_tab_stops q)).
Definition set_first_line_indent (p : paragraph_ref) (v : Z) : M () :=
  modify_paragraph p (λ q,
    Paragraph (p_style q) (p_runs q) (p_left_indent q) (Some v) (p_tab_stops q)).
Definition tab_stops_clear_all (p : paragraph_ref) : M () :=
  modify_paragraph p (λ q,
    Paragraph (p_style q) (p_runs q) (p_left_indent q) (p_first_line_indent q) []).
(** [add_tab_stop(position, alignment=LEFT)] *)
Definition add_tab_stop (p : paragraph_ref) (pos : Z) (al : WD_TAB_ALIGNMENT) : M () :=
  modify_paragraph p (λ q,
    Paragraph (p_style q) (p_runs q) (p_left_indent q) (p_first_line_indent q)
              (p_tab_stops q ++ [TabStop pos al])).

(** [doc.add_table(rows, cols)]: every cell holds one empty paragraph. *)
Definition add_table (rows cols : nat) : M nat :=
  append_block (BTable
    (Table None true None (replicate cols None)
           (replicate rows (replicate cols (empty_paragraph Normal))))).

Definition set_table_style (t : nat) (st : style_name) : M () :=
  modify_table t (λ tb,
    Table (Some st) (t_autofit tb) (t_allow_autofit tb) (t_widths tb) (t_rows tb)).
Definition set_autofit (t : nat) (b : bool) : M () :=
  modify_table t (λ tb,
    Table (t_style tb) b (t_allow_autofit tb) (t_widths tb) (t_rows tb)).
Definition set_allow_autofit (t : nat) (b : bool) : M () :=
  modify_table t (λ tb,
    Table (t_style tb) (t_autofit tb) (Some b) (t_widths tb) (t_rows tb)).
(** [table.columns[i].width = w] *)
Definition set_column_width (t : nat) (i : nat) (w : Z) : M () :=
  update_table t (λ tb,
    match t_widths tb !! i with
    | Some _ =>
        inr ((), Table (t_style tb) (t_autofit tb) (t_allow_autofit tb)
                       (<[i := Some w]> (t_widths tb)) (t_rows tb))
    | None => inl IndexError
    end).
(** [table.add_row()]: a row with one empty cell per column; the result is
    the index of the new row. *)
Definition add_row (t : nat) : M nat :=
  update_table t (λ tb,
    inr (length (t_rows tb),
         set_rows (t_rows tb ++ [replicate (length (t_widths tb)) (empty_paragraph Normal)]) tb)).

(** ** Python builtins *)

Definition str_lt (a b : string) : bool :=
  match String_as_OT.compare a b with Lt => true | _ => false end.

(** [sorted] is stable and compares keys with [<] only.  The keys are
    computed first; the decorated list is then sorted by insertion, each
    element going in front of the first one whose key is not smaller. *)
Fixpoint insert_keyed {A} (kx : string * A) (l : list (string * A)) : list (string * A) :=
  match l with
  | [] => [kx]
  | ky :: l' => if str_lt ky.1 kx.1 then ky :: insert_keyed kx l' else kx :: l
  end.

Definition sort_keyed {A} (l : list (string * A)) : list (string * A) :=
  foldr insert_keyed [] l.

(** [sorted(l)] on strings *)
Definition sorted (l : list string) : list string :=
  (sort_keyed (zip l l)).*2.

(** [d.keys()] of a dictionary; the order is irrelevant to the program, which
    sorts the keys at once. *)
Definition keys {V} (d : gmap string V) : list string := (map_to_list d).*1.

(** The grouping idiom of the program:
    [if k not in d: d[k] = []] then [d[k].append(x)]. *)
Definition group_append {V} (k : string) (x : V) (d : gmap string (list V)) :
    gmap string (list V) :=
  let d' := if decide (d !! k = None) then <[k := []]> d else d in
  alter (λ l, l ++ [x]) k d'.

(** ** The program *)

(** [doc.add_heading(text, level).runs[0].font.color.rgb = RGBColor(0, 0, 0)] *)
Definition add_black_heading (text : string) (level : nat) : M () :=
  h ← add_heading text level;
  r ← runs_at h 0;
  set_rgb r black.

Definition add_senior_student_list (students : list student) : M () :=
  for_enumerate 1 students (λ i student,
    p ← add_paragraph "" Normal;
    set_left_indent p (Inches 50);;
    set_first_line_indent p (Inches (-25));;
    tab_stops_clear_all p;;
    add_tab_stop p (Inches 50) LEFT;;
    add_tab_stop p (Inches 300) CENTER;;
    add_tab_stop p (Inches 400) LEFT;;
    full_name ← subscript student "full_name";
    run1 ← add_run p (pretty i +:+ "." +:+ tab +:+ full_name +:+ tab);
    set_rgb run1 black;;
    run2 ← add_run p "–";
    set_rgb run2 black;;
    registration_number ← subscript student "registration_number";
    run3 ← add_run p (tab +:+ registration_number);
    set_rgb run3 black).

Definition headers : list string :=
  ["S.No."; "Name"; "SEC ID"; "Section"; "Department"].

Definition add_first_year_table (students : list student) : M () :=
  match students with
  | [] => mret ()
  | _ =>
    table ← add_table 1 5;
    set_table_style table TableGrid;;
    set_autofit table false;;
    set_allow_autofit table false;;
    set_column_width table 0 (Inches 10);;
    set_column_width table 1 (Inches 200);;
    set_column_width table 2 (Inches 100);;
    set_column_width table 3 (Inches 10);;
    set_column_width table 4 (Inches 100);;
    for_enumerate 0 headers (λ i header_text,
      r ← add_run (InCell table 0 i) header_text;
      set_bold r true;;
      set_rgb r black);;
    departments ← for_map students (λ s, subscript s "department");
    let sorted_students := (sort_keyed (zip departments students)).*2 in
    for_enumerate 1 sorted_students (λ i student,
      row ← add_row table;
      full_name ← subscript student "full_name";
      registration_number ← subscript student "registration_number";
      department ← subscript student "department";
      let row_data :=
        [pretty i; full_name; registration_number;
         default "N/A" (student !! "section"); department] in
      for_enumerate 0 row_data (λ idx cell_text,
        r ← add_run (InCell table row idx) cell_text;
        set_rgb r black))
  end.

Definition category_order : list string := ["Hostel"; "Dayscholar"; "Uncategorized"].
Definition year_order : list string := ["Fourth"; "Third"; "Second"; "First"].

(** The groups of a year of seniors: lines 239 to 252. *)
Definition add_senior_year (year_student_list : list student) : M () :=
  students_by_dept ← for_fold year_student_list ∅ (λ d student,
    dept ← subscript student "department";
    mret (group_append dept student d));
  for_each (sorted (keys students_by_dept)) (λ dept_name,
    match students_by_dept !! dept_name with
    | None => raise (KeyError dept_name)
    | Some dept_student_list =>
        add_black_heading dept_name 3;;
        add_senior_student_list dept_student_list
    end).

(** The body of the loop over [category_order]: lines 207 to 252. *)
Definition add_category (categorized_students : gmap string (list student))
    (category_name : string) : M () :=
  match categorized_students !! category_name with
  | None | Some [] => mret ()
  | Some student_list =>
    (if decide (category_name = "Uncategorized") then mret ()
     else add_black_heading category_name 1);;
    students_by_year ← for_fold student_list ∅ (λ d student,
      year ← subscript student "year";
      mret (group_append year student d));
    for_each year_order (λ year,
      match students_by_year !! year with
      | None | Some [] => mret ()
      | Some year_student_list =>
        add_black_heading (year +:+ " Year") 2;;
        if decide (year = "First") then add_first_year_table year_student_list
        else add_senior_year year_student_list
      end)
  end.

Definition categorize (students : list student) : gmap string (list student) :=
  foldl (λ d student,
    let category := default "Uncategorized" (student !! "category") in
    group_append category student d) ∅ students.

Definition assemble (students : list student) : M () :=
  set_normal_font "Times New Roman" (Pt 12);;
  add_black_heading "VOLUNTEERS LIST" 0;;
  let categorized_students := categorize students in
  for_each category_order (add_category categorized_students).

Definition generate_student_document (students : list student) : error + document :=
  match assemble students docx_Document with
  | inl e => inl e
  | inr (_, doc) => inr doc
  end.

(** ** Concrete records *)

Definition mk_student (fields : list (string * string)) : student :=
  list_to_map fields.

Definition scenario_A : list student :=
  [mk_student [("full_name", "Asha"); ("registration_number", "SEC25CS001");
               ("department", "CSE"); ("year", "First")]].

Definition scenario_B : list student :=
  [mk_student [("full_name", "Bala"); ("registration_number", "SEC24EC007");
               ("department", "ECE"); ("year", "Second"); ("category", "Hostel")];
   mk_student [("full_name", "Chitra"); ("registration_number", "SEC24CS011");
               ("department", "CSE"); ("year", "Second"); ("category", "Hostel")]].

(** ** The layout, as the specification words it

    The functions below describe the blocks the program appends, by
    filtering the input instead of building dictionaries.  They are compared
    with the program in the second half of the file. *)

Global Instance result_ret : MRet (sum error) := λ A x, inr x.
Global Instance result_bind : MBind (sum error) := λ A B f m,
  match m with
  | inl e => inl e
  | inr x => f x
  end.

Definition field (s : student) (key : string) : error + string :=
  match s !! key with
  | Some v => inr v
  | None => inl (KeyError key)
  end.

Definition has_key (key : string) (s : student) : Prop := is_Some (s !! key).

(** Outputs in sequence; the first error wins. *)
Definition out_app {A} (o1 o2 : error + list A) : error + list A :=
  b1 ← o1; b2 ← o2; mret (b1 ++ b2).

Definition out_concat {A} (os : list (error + list A)) : error + list A :=
  foldr out_app (inr []) os.

Definition heading_style (level : nat) : style_name :=
  if decide (level = 0) then Title else Heading level.

Definition heading (level : nat) (text : string) : block :=
  BParagraph (Paragraph (heading_style level) [Run text None (Some black)] None None []).

(** What [add_run] answers for a text. *)
Definition run_out (text : string) : error + () :=
  if xml_compatible text then inr () else inl ValueError.

(** A heading whose text is empty has no run to colour. *)
Definition heading_out (level : nat) (text : string) : error + list block :=
  if decide (text = "") then inl IndexError
  else run_out text;; mret [heading level text].

Definition senior_tab_stops : list tab_stop :=
  [TabStop (Inches 50) LEFT; TabStop (Inches 300) CENTER; TabStop (Inches 400) LEFT].

Definition senior_paragraph (i : nat) (full_name registration_number : string) : paragraph :=
  Paragraph Normal
    [Run (pretty i +:+ "." +:+ tab +:+ full_name +:+ tab) None (Some black);
     Run "–" None (Some black);
     Run (tab +:+ registration_number) None (Some black)]
    (Some (Inches 50)) (Some (Inches (-25))) senior_tab_stops.

Definition senior_entry (i : nat) (s : student) : error + list block :=
  full_name ← field s "full_name";
  run_out (pretty i +:+ "." +:+ tab +:+ full_name +:+ tab);;
  registration_number ← field s "registration_number";
  run_out (tab +:+ registration_number);;
  mret [BParagraph (senior_paragraph i full_name registration_number)].

Definition senior_list_out (students : list student) : error + list block :=
  out_concat (imap (λ i, senior_entry (S i)) students).

Definition black_run (bold : option bool) (text : string) : run :=
  Run text bold (Some black).

Definition text_cell (bold : option bool) (text : string) : paragraph :=
  Paragraph Normal [black_run bold text] None None [].

Definition header_row : list paragraph := text_cell (Some true) <$> headers.

Definition data_row (i : nat) (s : student) : error + list (list paragraph) :=
  full_name ← field s "full_name";
  registration_number ← field s "registration_number";
  department ← field s "department";
  let row_data :=
    [pretty i; full_name; registration_number;
     default "N/A" (s !! "section"); department] in
  if forallb xml_compatible row_data then mret [text_cell None <$> row_data]
  else inl ValueError.

Definition first_year_widths : list (option Z) :=
  [Some (Inches 10); Some (Inches 200); Some (Inches 100);
   Some (Inches 10); Some (Inches 100)].

Definition first_year_table (rows : list (list paragraph)) : table :=
  Table (Some TableGrid) false (Some false) first_year_widths (header_row :: rows).

Definition department_of (s : student) : string := default "" (s !! "department").

(** The records of a first-year bucket in table order: a stable sort on the
    department. *)
Definition sort_by_department (students : list student) : list student :=
  (sort_keyed ((λ s, (department_of s, s)) <$> students)).*2.

Definition first_year_table_out (students : list student) : error + list block :=
  match students with
  | [] => inr []
  | _ =>
      if decide (Forall (has_key "department") students) then
        rows ← out_concat (imap (λ i, data_row (S i)) (sort_by_department students));
        mret [BTable (first_year_table rows)]
      else inl (KeyError "department")
  end.

(** The department headings of a senior year: the departments present, each
    once, in ascending order. *)
Definition departments (students : list student) : list string :=
  sorted (remove_dups (omap (λ s, s !! "department") students)).

Definition in_department (d : string) (s : student) : Prop := s !! "department" = Some d.
Definition in_year (y : string) (s : student) : Prop := s !! "year" = Some y.
Definition category_of (s : student) : string := default "Uncategorized" (s !! "category").
Definition in_category (c : string) (s : student) : Prop := category_of s = c.

Global Instance in_department_dec d s : Decision (in_department d s).
Proof. unfold in_department. apply _. Defined.
Global Instance in_year_dec y s : Decision (in_year y s).
Proof. unfold in_year. apply _. Defined.
Global Instance in_category_dec c s : Decision (in_category c s).
Proof. unfold in_category. apply _. Defined.
Global Instance has_key_dec k s : Decision (has_key k s).
Proof. unfold has_key. apply _. Defined.

Definition department_out (year_student_list : list student) (d : string) :
    error + list block :=
  out_app (heading_out 3 d)
          (senior_list_out (filter (in_department d) year_student_list)).

Definition senior_year_out (year_student_list : list student) : error + list block :=
  if decide (Forall (has_key "department") year_student_list) then
    out_concat (department_out year_student_list <$> departments year_student_list)
  else inl (KeyError "department").

Definition year_out (student_list : list student) (y : string) : error + list block :=
  match filter (in_year y) student_list with
  | [] => inr []
  | g =>
      out_app (heading_out 2 (y +:+ " Year"))
              (if decide (y = "First") then first_year_table_out g
               else senior_year_out g)
  end.

Definition category_heading_out (c : string) : error + list block :=
  if decide (c = "Uncategorized") then inr [] else heading_out 1 c.

Definition years_out (student_list : list student) : error + list block :=
  if decide (Forall (has_key "year") student_list) then
    out_concat (year_out student_list <$> year_order)
  else inl (KeyError "year").

Definition category_out (students : list student) (c : string) : error + list block :=
  match filter (in_category c) students with
  | [] => inr []
  | l => out_app (category_heading_out c) (years_out l)
  end.

Definition layout (students : list student) : error + list block :=
  out_app (heading_out 0 "VOLUNTEERS LIST")
          (out_concat (category_out students <$> category_order)).

Definition finished (blocks : list block) : document :=
  Document (Some "Times New Roman") (Some (Pt 12)) blocks.

(** ** Append-only computations

    The program only ever adds to the document: blocks at the end of the
    body, rows at the end of the table it is filling.  [emits_on grow inv m o]
    says that from every document satisfying [inv], [m] raises the error of
    [o] or grows the document by the items of [o]. *)

Definition emits_on {X} (grow : list X → document → document)
    (inv : document → Prop) (m : M ()) (o : error + list X) : Prop :=
  ∀ d, inv d →
    m d = match o with
          | inl e => inl e
          | inr xs => inr ((), grow xs d)
          end.

Definition grow_blocks (bs : list block) (d : document) : document :=
  set_body (body d ++ bs) d.

Definition emits : M () → error + list block → Prop :=
  emits_on grow_blocks (λ _, True).

(** The table under construction is the last block, at index [t]. *)
Definition last_table (t : nat) (d : document) : Prop :=
  ∃ b tb, length b = t ∧ body d = b ++ [BTable tb] ∧ length (t_widths tb) = 5.

Definition grow_rows (rows : list (list paragraph)) (d : document) : document :=
  match reverse (body d) with
  | BTable tb :: rb => set_body (reverse rb ++ [BTable (set_rows (t_rows tb ++ rows) tb)]) d
  | _ => d
  end.

Definition emits_rows (t : nat) : M () → error + list (list paragraph) → Prop :=
  emits_on grow_rows (last_table t).

(** ** The order on strings, and what a dictionary of groups holds *)

Definition str_le (a b : string) : Prop := str_lt b a = false.

Definition keyed_le {A} (x y : string * A) : Prop := str_le x.1 y.1.

Definition nonempty {A} (l : list A) : option (list A) :=
  match l with
  | [] => None
  | _ => Some l
  end.

(** [d] groups the records of [l] by the key [kf]: a key is present exactly
    when some record has it, and holds these records in their order in [l]. *)
Definition groups_of (kf : student → string) (l : list student)
    (d : gmap string (list student)) : Prop :=
  ∀ k, d !! k = nonempty (filter (λ s, kf s = k) l).

Definition year_of (s : student) : string := default "" (s !! "year").

(** ** The assembled document, when assembly succeeds

    The blocks of the document in closed form, and the records for which the
    program runs to completion. *)

Definition name_of (s : student) : string := default "" (s !! "full_name").
Definition registration_of (s : student) : string :=
  default "" (s !! "registration_number").

Definition senior_paragraphs (l : list student) : list block :=
  imap (λ i s, BParagraph (senior_paragraph (S i) (name_of s) (registration_of s))) l.

Definition table_row (i : nat) (s : student) : list paragraph :=
  text_cell None <$>
    [pretty i; name_of s; registration_of s;
     default "N/A" (s !! "section"); department_of s].

Definition table_rows (l : list student) : list (list paragraph) :=
  imap (λ i, table_row (S i)) (sort_by_department l).

Definition department_section (g : list student) (d : string) : list block :=
  heading 3 d :: senior_paragraphs (filter (in_department d) g).

Definition year_section (l : list student) (y : string) : list block :=
  match filter (in_year y) l with
  | [] => []
  | g =>
      heading 2 (y +:+ " Year") ::
      (if decide (y = "First") then [BTable (first_year_table (table_rows g))]
       else flat_map (department_section g) (departments g))
  end.

Definition category_heading (c : string) : list block :=
  if decide (c = "Uncategorized") then [] else [heading 1 c].

Definition category_section (students : list student) (c : string) : list block :=
  match filter (in_category c) students with
  | [] => []
  | l => category_heading c ++ flat_map (year_section l) year_order
  end.

Definition document_blocks (students : list student) : list block :=
  heading 0 "VOLUNTEERS LIST" :: flat_map (category_section students) category_order.

(** The text is accepted as the text of a run. *)
Definition text_ok (text : string) : Prop := xml_compatible text = true.

(** Text made of printable ASCII characters only. *)
Definition printable (c : ascii) : bool := bool_decide (32 ≤ code c ∧ code c < 128)%N.

Fixpoint all_printable (s : string) : bool :=
  match s with
  | EmptyString => true
  | String c r => printable c && all_printable r
  end.

(** The keys a list paragraph reads, and those a table row reads. *)
Definition senior_keys (s : student) : Prop :=
  has_key "full_name" s ∧ has_key "registration_number" s.
Definition row_keys (s : student) : Prop :=
  senior_keys s ∧ has_key "department" s.

(** A record that [add_senior_student_list] renders: it has the keys, and
    the runs accept its name and its registration number. *)
Definition senior_ok (s : student) : Prop :=
  senior_keys s ∧ text_ok (name_of s) ∧ text_ok (registration_of s).

(** A record that [add_first_year_table] renders: it has the keys, and the
    runs accept the text of its four cells. *)
Definition row_ok (s : student) : Prop :=
  row_keys s ∧ text_ok (name_of s) ∧ text_ok (registration_of s) ∧
  text_ok (default "N/A" (s !! "section")) ∧ text_ok (department_of s).

(** A department that makes a heading: present, not empty, and accepted by
    the run of the heading. *)
Definition department_ok (s : student) : Prop :=
  has_key "department" s ∧ department_of s ≠ "" ∧ text_ok (department_of s).

(** What a record of the year bucket [y] must be. *)
Definition year_ok (y : string) (s : student) : Prop :=
  if decide (y = "First") then row_ok s else department_ok s ∧ senior_ok s.

(** A record of an iterated category does not stop the program. *)
Definition record_ok (s : student) : Prop :=
  has_key "year" s ∧ (year_of s ∈ year_order → year_ok (year_of s) s).

Definition renderable (students : list student) : Prop :=
  Forall (λ s, category_of s ∈ category_order → record_ok s) students.

Global Instance text_ok_dec text : Decision (text_ok text).
Proof. unfold text_ok. apply _. Defined.
Global Instance senior_keys_dec s : Decision (senior_keys s).
Proof. unfold senior_keys. apply _. Defined.
Global Instance row_keys_dec s : Decision (row_keys s).
Proof. unfold row_keys. apply _. Defined.
Global Instance senior_ok_dec s : Decision (senior_ok s).
Proof. unfold senior_ok. apply _. Defined.
Global Instance row_ok_dec s : Decision (row_ok s).
Proof. unfold row_ok. apply _. Defined.
Global Instance department_ok_dec s : Decision (department_ok s).
Proof. unfold department_ok. apply _. Defined.
Global Instance year_ok_dec y s : Decision (year_ok y s).
Proof. unfold year_ok. destruct (decide (y = "First")); apply _. Defined.
Global Instance record_ok_dec s : Decision (record_ok s).
Proof. unfold record_ok. apply _. Defined.
Global Instance renderable_dec students : Decision (renderable students).
Proof. unfold renderable. apply _. Defined.

Definition is_error {A} (o : error + A) : Prop := ∃ e, o = inl e.

(** ** Observations on a document *)

Definition heading_level (b : block) : option nat :=
  match b with
  | BParagraph p =>
      match p_style p with
      | Title => Some 0
      | Heading n => Some n
      | _ => None
      end
  | BTable _ => None
  end.

(** The blocks other than the category headings. *)
Definition without_category_headings (bs : list block) : list block :=
  filter (λ b, heading_level b ≠ Some 1) bs.

Definition strip_out (o : error + list block) : error + list block :=
  match o with
  | inl e => inl e
  | inr bs => inr (without_category_headings bs)
  end.

Definition strip_document (r : error + document) : error + list block :=
  match r with
  | inl e => inl e
  | inr d => inr (without_category_headings (body d))
  end.

(** Every run of a block: those of a paragraph, those of the cells of a
    table. *)
Definition block_runs (b : block) : list run :=
  match b with
  | BParagraph p => p_runs p
  | BTable t => flat_map p_runs (concat (t_rows t))
  end.

Definition first_text (p : paragraph) : string :=
  match p_runs p with
  | r :: _ => run_text r
  | [] => ""
  end.

(** The paragraph is the entry number [i] of a list. *)
Definition list_number (i : nat) (p : paragraph) : Prop :=
  ∃ rest, first_text p = pretty i +:+ "." +:+ tab +:+ rest.

(** The first cell of each data row of a table. *)
Definition row_numbers (t : table) : list string :=
  (λ row, match row with c :: _ => first_text c | [] => "" end) <$> tail (t_rows t).

Definition table_numbered (t : table) : Prop :=
  row_numbers t = pretty <$> seq 1 (length (tail (t_rows t))).

(** Reading a document from the top: a department heading (level 3) opens a
    list, whose paragraphs must be numbered 1, 2, 3, ...; any other heading,
    and a table, closes it; a list paragraph outside a list is not allowed;
    the data rows of every table are numbered 1, 2, 3, ... *)
Fixpoint numbered (state : option nat) (bs : list block) : Prop :=
  match bs with
  | [] => True
  | BTable t :: bs => table_numbered t ∧ numbered None bs
  | BParagraph p :: bs =>
      match p_style p with
      | Heading 3 => numbered (Some 1) bs
      | Heading _ | Title => numbered None bs
      | _ =>
          match state with
          | Some i => list_number i p ∧ numbered (Some (S i)) bs
          | None => False
          end
      end
  end.

Definition without_first (s : string) : string :=
  match s with
  | String _ s' => s'
  | EmptyString => EmptyString
  end.

(** The registration numbers a document shows: the third cell of each data
    row, and the third run of each list paragraph without its tab. *)
Definition rendered_registration_numbers (bs : list block) : list string :=
  flat_map (λ b,
    match b with
    | BParagraph p =>
        match p_style p, p_runs p with
        | Normal, [_; _; r3] => [without_first (run_text r3)]
        | _, _ => []
        end
    | BTable t =>
        (λ row, match row with
                | _ :: _ :: c :: _ => first_text c
                | _ => ""
                end) <$> tail (t_rows t)
    end) bs.

(** What follows the heading of a year. *)
Definition year_content (g : list student) (y : string) : list block :=
  if decide (y = "First") then [BTable (first_year_table (table_rows g))]
  else flat_map (department_section g) (departments g).

(** A block that cannot continue a list: a heading or a table. *)
Definition fresh (bs : list block) : Prop :=
  match bs with
  | [] => True
  | BTable _ :: _ => True
  | BParagraph p :: _ =>
      match p_style p with
      | Heading _ | Title => True
      | _ => False
      end
  end.

Definition section_ok (bs : list block) : Prop :=
  fresh bs ∧ ∀ rest, fresh rest → numbered None rest → numbered None (bs ++ rest).

Definition black_runs (b : block) : Prop :=
  Forall (λ r, run_rgb r = Some black) (block_runs b) ∧
  (is_Some (heading_level b) → ∃ r, block_runs b = [r]).

(** Nothing, or blocks that begin with a title, category or year heading. *)
Definition starts_section (bs : list block) : Prop :=
  match bs with
  | [] => True
  | b :: _ => ∃ n, heading_level b = Some n ∧ n ≤ 2
  end.

(** ** More concrete records *)

(** A record without [full_name], whose year is empty. *)
Definition nameless_student : student :=
  mk_student [("registration_number", "SEC25CS001"); ("department", "CSE");
              ("year", "")].

(** A record satisfying the schema, whose year is the empty string. *)
Definition yearless_student : student :=
  mk_student [("full_name", "Asha"); ("registration_number", "SEC25CS001");
              ("department", "CSE"); ("year", "")].

(** A first-year record whose category is not a recognised one. *)
Definition postgraduate_student : student :=
  mk_student [("full_name", "Asha"); ("registration_number", "SEC25CS002");
              ("department", "CSE"); ("year", "First"); ("category", "PG")].

(** A record of the Hostel category without [registration_number]. *)
Definition unregistered_student : student :=
  mk_student [("full_name", "Devi"); ("department", "IT");
              ("year", "Third"); ("category", "Hostel")].

(** Three first-year records of two departments, not in table order; the
    first has a section. *)
Definition first_year_trio : list student :=
  [mk_student [("full_name", "Bala"); ("registration_number", "SEC25EC007");
               ("department", "ECE"); ("year", "First"); ("section", "B")];
   mk_student [("full_name", "Asha"); ("registration_number", "SEC25CS001");
               ("department", "CSE"); ("year", "First")];
   mk_student [("full_name", "Chitra"); ("registration_number", "SEC25EC011");
               ("department", "ECE"); ("year", "First")]].

Definition form_feed : string := String (Ascii.ascii_of_nat 12) EmptyString.

(** A record with its four mandatory keys, whose name holds a form feed. *)
Definition form_feed_student : student :=
  mk_student [("full_name", "A" +:+ form_feed +:+ "B");
              ("registration_number", "SEC24CS001");
              ("department", "CSE"); ("year", "Second")].

(** ** [extract_json_from_response]

    [re.search(r'\[.*\]', text, re.DOTALL)]: the pattern is tried at each
    position from the left; at a position holding an opening bracket, the
    greedy [.*] (which, with [DOTALL], matches every character) takes as much
    as it can, giving characters back one at a time until a closing bracket
    follows.  Both brackets are ASCII, so on UTF-8 text the bytes matched are
    those of the characters Python matches. *)

(** [.*\]] at the head of [s]: the text matched, if any. *)
Fixpoint star_close (s : string) : option string :=
  match s with
  | EmptyString => None
  | String c r =>
      match star_close r with
      | Some m => Some (String c m)
      | None => if decide (c = "]"%char) then Some (String c EmptyString) else None
      end
  end.

(** [\[.*\]] at the head of [s]. *)
Definition match_here (s : string) : option string :=
  match s with
  | EmptyString => None
  | String c r => if decide (c = "["%char) then String c <$> star_close r else None
  end.

(** The leftmost match. *)
Fixpoint re_search (s : string) : option string :=
  match match_here s with
  | Some m => Some m
  | None =>
      match s with
      | EmptyString => None
      | String _ r => re_search r
      end
  end.

(** [match.group(0)] when there is a match, [None] otherwise. *)
Definition extract_json_from_response (text : string) : option string :=
  match re_search text with
  | Some m => Some m
  | None => None
  end.

(** The character [c] occurs in [s]. *)
Fixpoint has_char (c : ascii) (s : string) : bool :=
  match s with
  | EmptyString => false
  | String x r => if decide (x = c) then true else has_char c r
  end.

(** A response in a Markdown code fence. *)
Definition fenced_response : string :=
  "```json" +:+ "[{}, {}]" +:+ "```".

(** A first-year bucket whose first record lacks [full_name] and whose
    second lacks [department]. *)
Definition incomplete_first_years : list student :=
  [mk_student [("registration_number", "SEC25CS001"); ("department", "CSE");
               ("year", "First")];
   mk_student [("full_name", "Bala"); ("registration_number", "SEC25IT002");
               ("year", "First")]].

(** Records of two categories, in two orders. *)
Definition mixed_students : list student :=
  [mk_student [("full_name", "Asha"); ("registration_number", "SEC25CS001");
               ("department", "CSE"); ("year", "First")];
   mk_student [("full_name", "Bala"); ("registration_number", "SEC24EC007");
               ("department", "ECE"); ("year", "Second"); ("category", "Hostel")]].

(** The texts of a record that go into runs: the four cells of a row for a
    First year; the department heading, the name and the registration number
    for the other years. *)
Definition written_texts (y : string) (s : student) : list string :=
  if decide (y = "First") then
    [name_of s; registration_of s; default "N/A" (s !! "section"); department_of s]
  else [department_of s; name_of s; registration_of s].

(** The error [e] is the [ValueError] of a text of [ts] that no run
    accepts. *)
Definition refused (ts : list string) (e : error) : Prop :=
  e = ValueError ∧ ∃ t, t ∈ ts ∧ xml_compatible t = false.

(** The record the error [e] is due to: a [KeyError] names a mandatory key
    the record lacks; an [IndexError] comes from the empty department of a
    Fourth, Third or Second year record; a [ValueError] from a text of a
    record of one of the four years. *)
Definition blamed (e : error) (s : student) : Prop :=
  (∃ k, e = KeyError k ∧
        k ∈ ["year"; "department"; "full_name"; "registration_number"] ∧
        ¬ has_key k s) ∨
  (e = IndexError ∧ s !! "department" = Some "" ∧
   year_of s ∈ ["Fourth"; "Third"; "Second"]) ∨
  (e = ValueError ∧ year_of s ∈ ["Fourth"; "Third"; "Second"; "First"] ∧
   ∃ t, t ∈ written_texts (year_of s) s ∧ xml_compatible t = false).

(** The department cell of each data row of a table. *)
Definition department_column (t : table) : list string :=
  (λ row, match row with
          | [_; _; _; _; c] => first_text c
          | _ => ""
          end) <$> tail (t_rows t).

(** The tables of a document, in order. *)
Definition tables (bs : list block) : list table :=
  flat_map (λ b, match b with BTable t => [t] | BParagraph _ => [] end) bs.

Definition first_years (students : list student) (c : string) : list student :=
  filter (in_year "First") (filter (in_category c) students).

(** The error [e] is a [KeyError] for a key of [ks] that [s] lacks. *)
Definition missing_key (ks : list string) (e : error) (s : student) : Prop :=
  ∃ k, e = KeyError k ∧ k ∈ ks ∧ ¬ has_key k s.

(** The outline of a document: the level and the text of its headings. *)
Definition headings (bs : list block) : list (nat * string) :=
  flat_map (λ b,
    match b with
    | BParagraph p =>
        match heading_level b with
        | Some n => [(n, first_text p)]
        | None => []
        end
    | BTable _ => []
    end) bs.

(** * Properties *)

(** ** The monad *)

Lemma bind_inr {A B} (m : M A) (f : A → M B) d x d' :
  m d = inr (x, d') → (m ≫= f) d = f x d'.
Proof. intros H. unfold mbind, M_bind. by rewrite H. Qed.

Lemma bind_inl {A B} (m : M A) (f : A → M B) d e :
  m d = inl e → (m ≫= f) d = inl e.
Proof. intros H. unfold mbind, M_bind. by rewrite H. Qed.

Lemma set_body_id d : set_body (body d) d = d.
Proof. by destruct d. Qed.

Lemma out_app_nil_l {A} (o : error + list A) : out_app (inr []) o = o.
Proof. by destruct o. Qed.

Lemma out_app_nil_r {A} (o : error + list A) : out_app o (inr []) = o.
Proof. destruct o as [e|b]; [done|]. simpl. by rewrite app_nil_r. Qed.

Lemma out_app_assoc {A} (o1 o2 o3 : error + list A) :
  out_app (out_app o1 o2) o3 = out_app o1 (out_app o2 o3).
Proof.
  destruct o1 as [|b1]; [done|]. destruct o2 as [|b2]; [done|].
  destruct o3 as [|b3]; [done|]. simpl. by rewrite app_assoc.
Qed.

Section append_only.
Context {X : Type} (grow : list X → document → document) (inv : document → Prop).
Hypothesis grow_nil : ∀ d, inv d → grow [] d = d.
Hypothesis grow_app : ∀ xs ys d, inv d → grow (xs ++ ys) d = grow ys (grow xs d).
Hypothesis grow_inv : ∀ xs d, inv d → inv (grow xs d).

Lemma emits_on_ret : emits_on grow inv (mret ()) (inr []).
Proof using grow_nil. intros d Hd. by rewrite grow_nil. Qed.

Lemma emits_on_raise e : emits_on grow inv (raise e) (inl e).
Proof using Type. by intros d Hd. Qed.

Lemma emits_on_seq m1 m2 o1 o2 :
  emits_on grow inv m1 o1 → emits_on grow inv m2 o2 →
  emits_on grow inv (m1;; m2) (out_app o1 o2).
Proof using grow_app grow_inv.
  intros H1 H2 d Hd. unfold mbind, M_bind. rewrite H1 by done.
  destruct o1 as [e|b1]; [done|]. simpl. rewrite H2 by auto.
  destruct o2 as [e|b2]; [done|]. simpl. by rewrite grow_app.
Qed.

Lemma emits_on_for_each {A} (l : list A) f g :
  (∀ x, x ∈ l → emits_on grow inv (f x) (g x)) →
  emits_on grow inv (for_each l f) (out_concat (g <$> l)).
Proof using grow_nil grow_app grow_inv.
  induction l as [|x l IH]; intros H; simpl.
  - apply emits_on_ret.
  - apply emits_on_seq.
    + apply H. left.
    + apply IH. intros y Hy. apply H. by right.
Qed.

Lemma emits_on_for_enumerate {A} (l : list A) f g start :
  (∀ i x, l !! i = Some x →
     emits_on grow inv (f (start + i) x) (g (start + i) x)) →
  emits_on grow inv (for_enumerate start l f)
           (out_concat (imap (λ i, g (start + i)) l)).
Proof using grow_nil grow_app grow_inv.
  revert start. induction l as [|x l IH]; intros start H; simpl.
  - apply emits_on_ret.
  - apply emits_on_seq.
    + specialize (H 0 x eq_refl). rewrite Nat.add_0_r in H.
      by rewrite Nat.add_0_r.
    + erewrite imap_ext; [apply (IH (S start))|].
      * intros i y Hy. specialize (H (S i) y Hy).
        by rewrite Nat.add_succ_r in H.
      * intros i y _. simpl. by rewrite Nat.add_succ_r.
Qed.
End append_only.

Lemma emits_intro m o :
  (∀ n s b, m (Document n s b) =
     match o with
     | inl e => inl e
     | inr bs => inr ((), Document n s (b ++ bs))
     end) →
  emits m o.
Proof. intros H [n s b] _. apply H. Qed.

Lemma emits_elim m o n s b :
  emits m o →
  m (Document n s b) =
    match o with
    | inl e => inl e
    | inr bs => inr ((), Document n s (b ++ bs))
    end.
Proof. intros H. by apply (H (Document n s b)). Qed.

Lemma grow_blocks_nil d : grow_blocks [] d = d.
Proof. destruct d. unfold grow_blocks, set_body. simpl. by rewrite app_nil_r. Qed.

Lemma grow_blocks_app xs ys d :
  grow_blocks (xs ++ ys) d = grow_blocks ys (grow_blocks xs d).
Proof. destruct d. unfold grow_blocks, set_body. simpl. by rewrite app_assoc. Qed.

Lemma emits_ret : emits (mret ()) (inr []).
Proof. apply emits_on_ret. intros. apply grow_blocks_nil. Qed.

Lemma emits_raise e : emits (raise e) (inl e).
Proof. apply emits_on_raise. Qed.

Lemma emits_seq m1 m2 o1 o2 :
  emits m1 o1 → emits m2 o2 → emits (m1;; m2) (out_app o1 o2).
Proof. apply emits_on_seq; auto using grow_blocks_app. Qed.

Lemma emits_for_each {A} (l : list A) f g :
  (∀ x, x ∈ l → emits (f x) (g x)) →
  emits (for_each l f) (out_concat (g <$> l)).
Proof.
  apply emits_on_for_each; auto using grow_blocks_app, grow_blocks_nil.
Qed.

Lemma emits_for_enumerate {A} (l : list A) f g start :
  (∀ i x, l !! i = Some x → emits (f (start + i) x) (g (start + i) x)) →
  emits (for_enumerate start l f) (out_concat (imap (λ i, g (start + i)) l)).
Proof.
  apply emits_on_for_enumerate; auto using grow_blocks_app, grow_blocks_nil.
Qed.

(** ** Updates through a reference to the last block *)

Lemma lookup_snoc {A} (l : list A) x : (l ++ [x]) !! length l = Some x.
Proof. by rewrite list_lookup_middle. Qed.

Lemma insert_snoc {A} (l : list A) x y : <[length l := y]> (l ++ [x]) = l ++ [y].
Proof.
  replace (length l) with (length l + 0) by lia.
  by rewrite insert_app_r.
Qed.

Lemma append_block_eq n s b x :
  append_block x (Document n s b) = inr (length b, Document n s (b ++ [x])).
Proof. done. Qed.

Lemma update_paragraph_last {A} (f : paragraph → error + A * paragraph) n s b p :
  update_paragraph (InBody (length b)) f (Document n s (b ++ [BParagraph p])) =
  match f p with
  | inl e => inl e
  | inr (a, p') => inr (a, Document n s (b ++ [BParagraph p']))
  end.
Proof.
  simpl. rewrite lookup_snoc. destruct (f p) as [e|[a p']]; [done|].
  unfold set_body. simpl. by rewrite insert_snoc.
Qed.

Lemma update_table_last {A} (f : table → error + A * table) n s b tb :
  update_table (length b) f (Document n s (b ++ [BTable tb])) =
  match f tb with
  | inl e => inl e
  | inr (a, tb') => inr (a, Document n s (b ++ [BTable tb']))
  end.
Proof.
  unfold update_table. simpl. rewrite lookup_snoc.
  destruct (f tb) as [e|[a tb']]; [done|].
  unfold set_body. simpl. by rewrite insert_snoc.
Qed.

Lemma add_run_last text n s b p :
  add_run (InBody (length b)) text (Document n s (b ++ [BParagraph p])) =
  if xml_compatible text then
    inr ((InBody (length b), length (p_runs p)),
         Document n s (b ++ [BParagraph (set_runs (p_runs p ++ [Run text None None]) p)]))
  else inl ValueError.
Proof.
  unfold add_run. rewrite update_paragraph_last. by destruct (xml_compatible text).
Qed.

Lemma add_paragraph_eq text st n s b :
  add_paragraph text st (Document n s b) =
  if xml_compatible text then
    inr (InBody (length b),
         Document n s (b ++ [BParagraph
           (set_runs (if decide (text = "") then [] else [Run text None None])
                     (empty_paragraph st))]))
  else inl ValueError.
Proof.
  unfold add_paragraph. erewrite bind_inr; [|apply append_block_eq].
  destruct (decide (text = "")) as [->|Hne]; [done|].
  unfold mbind at 1, M_bind at 1. unfold mbind at 1, M_bind at 1.
  rewrite add_run_last. by destruct (xml_compatible text).
Qed.

Lemma emits_add_black_heading text level :
  level ≤ 9 → emits (add_black_heading text level) (heading_out level text).
Proof.
  intros Hl. apply emits_intro. intros n s b.
  unfold add_black_heading, add_heading, heading_out, run_out.
  rewrite decide_True by done.
  unfold mbind at 1, M_bind at 1. rewrite add_paragraph_eq.
  destruct (decide (text = "")) as [->|Hne].
  - apply bind_inl. unfold runs_at. by rewrite update_paragraph_last.
  - destruct (xml_compatible text); [|done].
    unfold runs_at, set_rgb, update_run.
    erewrite bind_inr; [|by rewrite update_paragraph_last].
    simpl fst; simpl snd. rewrite update_paragraph_last. simpl.
    unfold heading, heading_style. done.
Qed.

(** ** The senior list *)

Lemma subscript_eq (st : student) key d :
  subscript st key d =
  match st !! key with
  | Some v => inr (v, d)
  | None => inl (KeyError key)
  end.
Proof. unfold subscript. by destruct (st !! key). Qed.

Lemma add_paragraph_empty st n s b :
  add_paragraph "" st (Document n s b) =
  inr (InBody (length b), Document n s (b ++ [BParagraph (empty_paragraph st)])).
Proof. done. Qed.

(** One step of a straight-line block on the last paragraph or table. *)
Ltac last_block_step :=
  first
    [ erewrite bind_inr;
      [|solve [ apply add_paragraph_empty
              | apply append_block_eq
              | etransitivity;
                [refine (update_paragraph_last _ _ _ _ _)|simpl; reflexivity] ]]
    | etransitivity;
      [refine (update_paragraph_last _ _ _ _ _)|simpl] ].

(** [add_run] on the last paragraph, for a text known to be accepted or
    refused. *)
Ltac add_run_step H :=
  first
    [ erewrite bind_inr; [|rewrite add_run_last, H; reflexivity]
    | apply bind_inl; rewrite add_run_last, H; reflexivity ].

Lemma emits_senior_entry i (st : student) :
  emits
    (p ← add_paragraph "" Normal;
     set_left_indent p (Inches 50);;
     set_first_line_indent p (Inches (-25));;
     tab_stops_clear_all p;;
     add_tab_stop p (Inches 50) LEFT;;
     add_tab_stop p (Inches 300) CENTER;;
     add_tab_stop p (Inches 400) LEFT;;
     full_name ← subscript st "full_name";
     run1 ← add_run p (pretty i +:+ "." +:+ tab +:+ full_name +:+ tab);
     set_rgb run1 black;;
     run2 ← add_run p "–";
     set_rgb run2 black;;
     registration_number ← subscript st "registration_number";
     run3 ← add_run p (tab +:+ registration_number);
     set_rgb run3 black)
    (senior_entry i st).
Proof.
  apply emits_intro. intros n s b. unfold senior_entry, field, run_out.
  do 7 last_block_step.
  destruct (st !! "full_name") as [full_name|] eqn:Hn.
  2: { apply bind_inl. by rewrite subscript_eq, Hn. }
  erewrite bind_inr; [|by rewrite subscript_eq, Hn].
  cbn [mbind result_bind].
  destruct (xml_compatible (pretty i +:+ "." +:+ tab +:+ full_name +:+ tab)) eqn:H1;
    add_run_step H1.
  last_block_step.
  assert (xml_compatible "–" = true) as H2 by done.
  add_run_step H2. last_block_step.
  destruct (st !! "registration_number") as [reg|] eqn:Hr.
  2: { apply bind_inl. by rewrite subscript_eq, Hr. }
  erewrite bind_inr; [|by rewrite subscript_eq, Hr].
  cbn [mbind result_bind].
  destruct (xml_compatible (tab +:+ reg)) eqn:H3; add_run_step H3.
  last_block_step. done.
Qed.

Lemma emits_add_senior_student_list students :
  emits (add_senior_student_list students) (senior_list_out students).
Proof.
  unfold add_senior_student_list, senior_list_out.
  apply (emits_for_enumerate students _ senior_entry 1).
  intros i st _. apply emits_senior_entry.
Qed.

(** ** The first-year table *)

Lemma grow_rows_last rows n s b tb :
  grow_rows rows (Document n s (b ++ [BTable tb])) =
  Document n s (b ++ [BTable (set_rows (t_rows tb ++ rows) tb)]).
Proof.
  unfold grow_rows, set_body. cbn [body normal_font_name normal_font_size].
  by rewrite reverse_snoc, reverse_involutive.
Qed.

Lemma set_rows_set_rows r1 r2 tb : set_rows r2 (set_rows r1 tb) = set_rows r2 tb.
Proof. done. Qed.

Lemma grow_rows_nil t d : last_table t d → grow_rows [] d = d.
Proof.
  destruct d as [n s bd]. intros (b & tb & _ & Hb & _). simpl in Hb. subst bd.
  rewrite grow_rows_last, app_nil_r. by destruct tb.
Qed.

Lemma grow_rows_app t xs ys d :
  last_table t d → grow_rows (xs ++ ys) d = grow_rows ys (grow_rows xs d).
Proof.
  destruct d as [n s bd]. intros (b & tb & _ & Hb & _). simpl in Hb. subst bd.
  rewrite !grow_rows_last. simpl. by rewrite app_assoc.
Qed.

Lemma grow_rows_inv t xs d : last_table t d → last_table t (grow_rows xs d).
Proof.
  destruct d as [n s bd]. intros (b & tb & Ht & Hb & Hw). simpl in Hb. subst bd.
  rewrite grow_rows_last. by exists b, (set_rows (t_rows tb ++ xs) tb).
Qed.

Lemma emits_rows_intro t m o :
  (∀ n s b tb, length b = t → length (t_widths tb) = 5 →
     m (Document n s (b ++ [BTable tb])) =
     match o with
     | inl e => inl e
     | inr rows =>
         inr ((), Document n s (b ++ [BTable (set_rows (t_rows tb ++ rows) tb)]))
     end) →
  emits_rows t m o.
Proof.
  intros H [n s bd] (b & tb & Ht & Hb & Hw). simpl in Hb. subst bd.
  rewrite H by done. destruct o; [done|]. by rewrite grow_rows_last.
Qed.

Lemma emits_rows_elim t m o n s b tb :
  emits_rows t m o → length b = t → length (t_widths tb) = 5 →
  m (Document n s (b ++ [BTable tb])) =
  match o with
  | inl e => inl e
  | inr rows =>
      inr ((), Document n s (b ++ [BTable (set_rows (t_rows tb ++ rows) tb)]))
  end.
Proof.
  intros H Ht Hw. rewrite H by (by exists b, tb).
  destruct o; [done|]. by rewrite grow_rows_last.
Qed.

Lemma emits_rows_for_enumerate {A} t (l : list A) f g start :
  (∀ i x, l !! i = Some x → emits_rows t (f (start + i) x) (g (start + i) x)) →
  emits_rows t (for_enumerate start l f) (out_concat (imap (λ i, g (start + i)) l)).
Proof.
  apply emits_on_for_enumerate;
    eauto using grow_rows_nil, grow_rows_app, grow_rows_inv.
Qed.

(** An update of a cell of the last row of the last table. *)
Lemma update_cell_last {A} (f : paragraph → error + A * paragraph)
    n s b tb rows cells col p :
  t_rows tb = rows ++ [cells] → cells !! col = Some p →
  update_paragraph (InCell (length b) (length rows) col) f
    (Document n s (b ++ [BTable tb])) =
  match f p with
  | inl e => inl e
  | inr (a, p') =>
      inr (a, Document n s
                (b ++ [BTable (set_rows (rows ++ [<[col := p']> cells]) tb)]))
  end.
Proof.
  intros Hr Hc. simpl. rewrite update_table_last, Hr, lookup_snoc, Hc.
  destruct (f p) as [e|[a p']]; [done|]. by rewrite insert_snoc.
Qed.

Lemma add_run_cell n s b tb rows cells col p text :
  t_rows tb = rows ++ [cells] → cells !! col = Some p →
  add_run (InCell (length b) (length rows) col) text
    (Document n s (b ++ [BTable tb])) =
  if xml_compatible text then
    inr ((InCell (length b) (length rows) col, length (p_runs p)),
         Document n s
           (b ++ [BTable (set_rows
              (rows ++ [<[col := set_runs (p_runs p ++ [Run text None None]) p]> cells])
              tb)]))
  else inl ValueError.
Proof.
  intros Hr Hc. unfold add_run. erewrite update_cell_last by done.
  by destruct (xml_compatible text).
Qed.

Lemma write_cell n s b tb rows cells col p text :
  t_rows tb = rows ++ [cells] → cells !! col = Some p →
  (r ← add_run (InCell (length b) (length rows) col) text; set_rgb r black)
    (Document n s (b ++ [BTable tb])) =
  if xml_compatible text then
    inr ((), Document n s
      (b ++ [BTable (set_rows
         (rows ++ [<[col := set_runs (p_runs p ++ [black_run None text]) p]> cells])
         tb)]))
  else inl ValueError.
Proof.
  intros Hr Hc. destruct (xml_compatible text) eqn:Ht.
  2: { apply bind_inl. by rewrite (add_run_cell _ _ _ _ _ _ _ _ _ Hr Hc), Ht. }
  erewrite bind_inr; [|by rewrite (add_run_cell _ _ _ _ _ _ _ _ _ Hr Hc), Ht].
  unfold set_rgb, update_run. simpl fst. simpl snd.
  erewrite update_cell_last; [|reflexivity|]; last first.
  { apply list_lookup_insert_eq. by eapply lookup_lt_Some. }
  simpl. rewrite lookup_snoc. simpl.
  rewrite list_insert_insert_eq, insert_snoc. done.
Qed.

Lemma write_header_cell n s b tb rows cells col p text :
  t_rows tb = rows ++ [cells] → cells !! col = Some p →
  xml_compatible text = true →
  (r ← add_run (InCell (length b) (length rows) col) text;
   set_bold r true;; set_rgb r black)
    (Document n s (b ++ [BTable tb])) =
  inr ((), Document n s
    (b ++ [BTable (set_rows
       (rows ++ [<[col := set_runs (p_runs p ++ [black_run (Some true) text]) p]> cells])
       tb)])).
Proof.
  intros Hr Hc Ht.
  erewrite bind_inr; [|by rewrite (add_run_cell _ _ _ _ _ _ _ _ _ Hr Hc), Ht].
  erewrite bind_inr.
  2: { unfold set_bold, update_run. simpl fst. simpl snd.
       erewrite update_cell_last; [|reflexivity|]; last first.
       { apply list_lookup_insert_eq. by eapply lookup_lt_Some. }
       simpl. rewrite lookup_snoc. simpl.
       rewrite list_insert_insert_eq, insert_snoc. reflexivity. }
  unfold set_rgb, update_run. simpl fst. simpl snd.
  erewrite update_cell_last; [|reflexivity|]; last first.
  { apply list_lookup_insert_eq. by eapply lookup_lt_Some. }
  simpl. rewrite lookup_snoc. simpl.
  rewrite list_insert_insert_eq, insert_snoc. done.
Qed.

Lemma emits_data_row t i (st : student) :
  emits_rows t
    (row ← add_row t;
     full_name ← subscript st "full_name";
     registration_number ← subscript st "registration_number";
     department ← subscript st "department";
     let row_data :=
       [pretty i; full_name; registration_number;
        default "N/A" (st !! "section"); department] in
     for_enumerate 0 row_data (λ idx cell_text,
       r ← add_run (InCell t row idx) cell_text;
       set_rgb r black))
    (data_row i st).
Proof.
  apply emits_rows_intro. intros n s b tb <- Hw. unfold data_row, field.
  erewrite bind_inr;
    [|unfold add_row; rewrite update_table_last, Hw; reflexivity].
  destruct (st !! "full_name") as [full_name|] eqn:Hn.
  2: { apply bind_inl. by rewrite subscript_eq, Hn. }
  erewrite bind_inr; [|by rewrite subscript_eq, Hn].
  destruct (st !! "registration_number") as [reg|] eqn:Hr.
  2: { apply bind_inl. by rewrite subscript_eq, Hr. }
  erewrite bind_inr; [|by rewrite subscript_eq, Hr].
  destruct (st !! "department") as [dept|] eqn:Hd.
  2: { apply bind_inl. by rewrite subscript_eq, Hd. }
  erewrite bind_inr; [|by rewrite subscript_eq, Hd].
  cbn [for_enumerate mbind result_bind forallb].
  do 5 (match goal with
  | |- context [if xml_compatible ?t && _ then _ else _] =>
      let H := fresh "Ht" in
      destruct (xml_compatible t) eqn:H; cbn [andb];
      [erewrite bind_inr;
         [|etransitivity; [apply write_cell; reflexivity|rewrite H; reflexivity]]
      |apply bind_inl;
       etransitivity; [apply write_cell; reflexivity|by rewrite H]]
  end).
  done.
Qed.

Lemma for_map_subscript (l : list student) key d :
  for_map l (λ s, subscript s key) d =
  if decide (Forall (has_key key) l)
  then inr ((λ s, default "" (s !! key)) <$> l, d)
  else inl (KeyError key).
Proof.
  induction l as [|x l IH].
  - by rewrite decide_True.
  - cbn [for_map]. unfold mbind, M_bind. rewrite subscript_eq.
    destruct (x !! key) as [v|] eqn:Hx.
    + rewrite IH. destruct (decide (Forall (has_key key) l)) as [Hl|Hl].
      * rewrite decide_True; [simpl; by rewrite Hx|].
        constructor; [by eexists|done].
      * rewrite decide_False; [done|]. by inv 1.
    + rewrite decide_False; [done|]. inv 1. unfold has_key in *.
      rewrite Hx in *. by eapply is_Some_None.
Qed.

Lemma zip_fmap_self {A B} (f : A → B) (l : list A) :
  zip (f <$> l) l = (λ x, (f x, x)) <$> l.
Proof. induction l; simpl; by f_equal. Qed.

Lemma emits_add_first_year_table students :
  emits (add_first_year_table students) (first_year_table_out students).
Proof.
  destruct students as [|s0 l]; [apply emits_ret|].
  apply emits_intro. intros n s b.
  unfold add_first_year_table, first_year_table_out. cbv beta iota.
  set (students := s0 :: l).
  erewrite bind_inr; [|apply append_block_eq].
  do 8 (erewrite bind_inr;
    [|etransitivity; [refine (update_table_last _ _ _ _ _)|simpl; reflexivity]]).
  cbn [for_enumerate headers].
  erewrite bind_inr.
  2: { do 5 (erewrite bind_inr;
         [|apply (write_header_cell _ _ _ _ []); reflexivity]).
       reflexivity. }
  unfold mbind at 1, M_bind at 1. rewrite for_map_subscript.
  destruct (decide (Forall (has_key "department") students)); [|done].
  rewrite zip_fmap_self. fold (sort_by_department students).
  etransitivity.
  { apply emits_rows_elim with (t := length b);
      [apply (emits_rows_for_enumerate _ _ _ data_row 1)|done|done].
    intros i x _. apply emits_data_row. }
  destruct (out_concat _) as [e|rows]; done.
Qed.

(** ** The order on strings and [sorted] *)

Lemma str_lt_spec a b : str_lt a b = true ↔ String_as_OT.lt a b.
Proof.
  unfold str_lt, String_as_OT.lt.
  destruct (String_as_OT.compare a b); split; congruence.
Qed.

Lemma str_lt_irrefl a : str_lt a a = false.
Proof.
  destruct (str_lt a a) eqn:H; [|done].
  apply str_lt_spec in H. by apply (irreflexivity String_as_OT.lt) in H.
Qed.

Lemma str_trichotomy a b : str_lt a b = true ∨ a = b ∨ str_lt b a = true.
Proof.
  destruct (String_as_OT.compare_spec a b) as [H|H|H].
  - by right; left.
  - left. by apply str_lt_spec.
  - right; right. by apply str_lt_spec.
Qed.

Lemma str_lt_trans a b c : str_lt a b = true → str_lt b c = true → str_lt a c = true.
Proof.
  rewrite !str_lt_spec. apply (transitivity (R := String_as_OT.lt)).
Qed.

Lemma str_lt_asym a b : str_lt a b = true → str_lt b a = false.
Proof.
  intros H. destruct (str_lt b a) eqn:H'; [|done].
  pose proof (str_lt_trans _ _ _ H H') as Ha. by rewrite str_lt_irrefl in Ha.
Qed.

Lemma str_le_iff a b : str_le a b ↔ str_lt a b = true ∨ a = b.
Proof.
  unfold str_le. split.
  - intros H. destruct (str_trichotomy a b) as [?|[?|?]]; auto. congruence.
  - intros [H| ->]; [by apply str_lt_asym|apply str_lt_irrefl].
Qed.

Global Instance str_le_refl : Reflexive str_le.
Proof. intros a. apply str_lt_irrefl. Qed.

Global Instance str_le_trans : Transitive str_le.
Proof.
  intros a b c. rewrite !str_le_iff.
  intros [H1| ->] [H2| ->]; eauto using str_lt_trans.
Qed.

Global Instance str_le_antisym : AntiSymm (=) str_le.
Proof.
  intros a b Hab Hba. apply str_le_iff in Hab as [H1| ->]; [|done].
  unfold str_le in Hba. congruence.
Qed.

Global Instance str_le_total : Total str_le.
Proof.
  intros a b. rewrite !str_le_iff.
  destruct (str_trichotomy a b) as [?|[?|?]]; auto.
Qed.

Global Instance keyed_le_trans {A} : Transitive (@keyed_le A).
Proof. intros x y z. unfold keyed_le. apply str_le_trans. Qed.


Lemma filter_ext_Forall {A} (P Q : A → Prop)
    `{∀ x, Decision (P x)} `{∀ x, Decision (Q x)} (l : list A) :
  Forall (λ x, P x ↔ Q x) l → filter P l = filter Q l.
Proof.
  induction 1 as [|x l Hx _ IH]; [done|].
  rewrite !filter_cons, IH.
  destruct (decide (P x)), (decide (Q x)); tauto.
Qed.

Section sort_keyed.
Context {A : Type}.
Implicit Types (x : string * A) (l : list (string * A)).

(** Where [insert_keyed] puts the new element: after a prefix of elements
    with a strictly smaller key. *)
Lemma insert_keyed_split x l :
  ∃ l1 l2, l = l1 ++ l2 ∧ insert_keyed x l = l1 ++ x :: l2 ∧
    Forall (λ y, str_lt y.1 x.1 = true) l1 ∧
    match l2 with [] => True | y :: _ => str_le x.1 y.1 end.
Proof.
  induction l as [|y l IH]; simpl.
  - by exists [], [].
  - destruct (str_lt y.1 x.1) eqn:Hy.
    + destruct IH as (l1 & l2 & -> & -> & H1 & H2).
      exists (y :: l1), l2. repeat split; auto.
    + exists [], (y :: l). repeat split; auto.
Qed.

Lemma insert_keyed_perm x l : insert_keyed x l ≡ₚ x :: l.
Proof.
  destruct (insert_keyed_split x l) as (l1 & l2 & -> & -> & _).
  by rewrite Permutation_middle.
Qed.

Lemma sort_keyed_perm l : sort_keyed l ≡ₚ l.
Proof.
  induction l as [|x l IH]; [done|]. simpl.
  by rewrite insert_keyed_perm, IH.
Qed.

Lemma insert_keyed_sorted x l :
  StronglySorted keyed_le l → StronglySorted keyed_le (insert_keyed x l).
Proof.
  intros Hl.
  destruct (insert_keyed_split x l) as (l1 & l2 & -> & -> & H1 & H2).
  apply StronglySorted_app in Hl as (H12 & Hl1 & Hl2).
  apply StronglySorted_app. split_and!; [|done|].
  - intros y z Hy Hz. rewrite Forall_forall in H1.
    assert (keyed_le y x) as Hyx.
    { apply str_le_iff. left. by apply H1. }
    apply elem_of_cons in Hz as [->|Hz]; [done|]. by apply H12.
  - apply StronglySorted_cons. split; [|done].
    destruct l2 as [|y l2]; [constructor|].
    apply StronglySorted_cons in Hl2 as [Hy Hl2].
    constructor; [done|].
    eapply Forall_impl; [exact Hy|]. intros z Hz. by etrans.
Qed.

Lemma sort_keyed_sorted l : StronglySorted keyed_le (sort_keyed l).
Proof.
  induction l as [|x l IH]; simpl; [constructor|].
  by apply insert_keyed_sorted.
Qed.


End sort_keyed.

Lemma sorted_perm l : sorted l ≡ₚ l.
Proof.
  unfold sorted. rewrite sort_keyed_perm. by rewrite snd_zip.
Qed.

Lemma sorted_sorted l : StronglySorted str_le (sorted l).
Proof.
  unfold sorted. pose proof (sort_keyed_sorted (zip l l)) as Hs.
  assert (Forall (λ p, p.1 = p.2) (sort_keyed (zip l l))) as Hd.
  { rewrite sort_keyed_perm. clear. induction l; constructor; auto. }
  induction Hs as [|p l' Hs IH Hp]; simpl; [constructor|].
  inv Hd. constructor; [auto|].
  rewrite Forall_fmap. rewrite Forall_forall in *. intros q Hq. simpl.
  specialize (Hp q Hq). unfold keyed_le in Hp.
  rewrite <- (H2 q Hq). congruence.
Qed.

(** Sorting is insensitive to the order of its argument when the elements
    are distinct: the order in which a dictionary lists its keys does not
    matter. *)
Lemma sorted_unique l1 l2 : l1 ≡ₚ l2 → sorted l1 = sorted l2.
Proof.
  intros H. apply (Sorted_unique str_le).
  - apply StronglySorted_Sorted, sorted_sorted.
  - apply StronglySorted_Sorted, sorted_sorted.
  - by rewrite !sorted_perm.
Qed.

(** Strictly ascending, hence without duplicates. *)
Lemma sorted_strict l :
  NoDup l → StronglySorted (λ a b, str_lt a b = true) (sorted l).
Proof.
  intros Hnd. rewrite <- sorted_perm in Hnd.
  pose proof (sorted_sorted l) as Hs.
  induction Hs as [|a l' Hs IH Ha]; [constructor|].
  apply NoDup_cons in Hnd as [Hna Hnd]. constructor; [auto|].
  rewrite Forall_forall in *. intros b Hb.
  specialize (Ha b Hb). apply str_le_iff in Ha as [?| ->]; done.
Qed.

(** ** Dictionaries of groups *)

Lemma nonempty_snoc {A} (l : list A) x : nonempty (l ++ [x]) = Some (l ++ [x]).
Proof. by destruct l. Qed.

Lemma nonempty_Some {A} (l g : list A) : nonempty l = Some g → l = g ∧ g ≠ [].
Proof. destruct l; [done|]. intros [= <-]. done. Qed.

Lemma nonempty_None {A} (l : list A) : nonempty l = None → l = [].
Proof. by destruct l. Qed.

Lemma groups_of_empty kf : groups_of kf [] ∅.
Proof. intros k. by rewrite lookup_empty. Qed.

Lemma group_append_groups kf l d s :
  groups_of kf l d → groups_of kf (l ++ [s]) (group_append (kf s) s d).
Proof.
  intros H k. unfold group_append. rewrite filter_app, filter_singleton by done.
  destruct (decide (kf s = k)) as [<-|Hne].
  - rewrite nonempty_snoc, lookup_alter_eq.
    destruct (decide (d !! kf s = None)) as [Hd|Hd].
    + rewrite lookup_insert_eq. simpl. rewrite H in Hd.
      by rewrite (nonempty_None _ Hd).
    + rewrite H in Hd |- *.
      destruct (filter _ l) eqn:Hf; [done|]. done.
  - rewrite app_nil_r, lookup_alter_ne by done.
    destruct (decide (d !! kf s = None)); [rewrite lookup_insert_ne by done|];
      apply H.
Qed.

Lemma foldl_groups kf l pre d :
  groups_of kf pre d →
  groups_of kf (pre ++ l) (foldl (λ d s, group_append (kf s) s d) d l).
Proof.
  revert pre d. induction l as [|s l IH]; intros pre d H; simpl.
  - by rewrite app_nil_r.
  - rewrite cons_middle, app_assoc. apply IH. by apply group_append_groups.
Qed.

Lemma categorize_groups students :
  groups_of category_of students (categorize students).
Proof. apply (foldl_groups category_of students []), groups_of_empty. Qed.

(** The loops that group by a mandatory key. *)
Lemma for_fold_groups key l pre d0 doc :
  groups_of (λ s, default "" (s !! key)) pre d0 →
  (Forall (has_key key) l ∧
   ∃ d, for_fold l d0 (λ d s, k ← subscript s key; mret (group_append k s d)) doc
          = inr (d, doc) ∧
        groups_of (λ s, default "" (s !! key)) (pre ++ l) d) ∨
  (¬ Forall (has_key key) l ∧
   for_fold l d0 (λ d s, k ← subscript s key; mret (group_append k s d)) doc
     = inl (KeyError key)).
Proof.
  revert pre d0. induction l as [|s l IH]; intros pre d0 H.
  - left. split; [constructor|]. exists d0. by rewrite app_nil_r.
  - cbn [for_fold]. destruct (s !! key) as [v|] eqn:Hs.
    + destruct (IH (pre ++ [s]) (group_append v s d0)) as [(Hl & d & Hd & Hg)|[Hl Hd]].
      { pose proof (group_append_groups _ _ _ s H) as H'. simpl in H'.
        by rewrite Hs in H'. }
      * left. split; [constructor; [by eexists|done]|].
        exists d. split.
        -- erewrite bind_inr; [exact Hd|].
           unfold mbind, M_bind. by rewrite subscript_eq, Hs.
        -- by rewrite cons_middle, app_assoc.
      * right. split; [by inv 1|].
        erewrite bind_inr; [exact Hd|].
        unfold mbind, M_bind. by rewrite subscript_eq, Hs.
    + right. split.
      * inv 1. unfold has_key in *. rewrite Hs in *. by eapply is_Some_None.
      * apply bind_inl. apply bind_inl. by rewrite subscript_eq, Hs.
Qed.

Lemma filter_key_Forall key k (l : list student) :
  Forall (has_key key) l →
  filter (λ s, default "" (s !! key) = k) l = filter (λ s, s !! key = Some k) l.
Proof.
  intros H. apply filter_ext_Forall. eapply Forall_impl; [exact H|].
  intros s [v Hv]. simpl. rewrite Hv. simpl. split; congruence.
Qed.

Lemma filter_nonempty_elem {A} (P : A → Prop) `{∀ x, Decision (P x)} (l : list A) :
  filter P l ≠ [] ↔ ∃ x, x ∈ l ∧ P x.
Proof.
  split.
  - destruct (filter P l) as [|x g] eqn:Hf; [done|]. intros _.
    assert (x ∈ filter P l) as Hx by (rewrite Hf; left).
    apply list_elem_of_filter in Hx as [? ?]. eauto.
  - intros (x & Hx & HP) Hf.
    assert (x ∈ filter P l) as Hx' by (by apply list_elem_of_filter).
    rewrite Hf in Hx'. by apply elem_of_nil in Hx'.
Qed.

Lemma nonempty_is_Some {A} (l : list A) : l ≠ [] → nonempty l = Some l.
Proof. by destruct l. Qed.

(** The keys of a dictionary of groups, sorted, are the departments. *)
Lemma sorted_keys_departments (l : list student) d :
  Forall (has_key "department") l →
  groups_of (λ s, default "" (s !! "department")) l d →
  sorted (keys d) = departments l.
Proof.
  intros Hl Hg. unfold departments. apply sorted_unique.
  apply NoDup_Permutation.
  - apply NoDup_fst_map_to_list.
  - apply NoDup_remove_dups.
  - intros k. rewrite elem_of_remove_dups, list_elem_of_omap.
    unfold keys. rewrite list_elem_of_fmap. split.
    + intros ([k' g] & -> & Hkg). apply elem_of_map_to_list in Hkg. simpl.
      rewrite Hg, filter_key_Forall in Hkg by done.
      apply nonempty_Some in Hkg as [<- Hne].
      apply filter_nonempty_elem in Hne as (s & Hs & Hk). eauto.
    + intros (s & Hs & Hk).
      exists (k, filter (λ s, s !! "department" = Some k) l). split; [done|].
      apply elem_of_map_to_list. rewrite Hg, filter_key_Forall by done.
      apply nonempty_is_Some, filter_nonempty_elem. eauto.
Qed.

(** ** The program against the layout *)

Lemma elem_of_departments (l : list student) k :
  k ∈ departments l ↔ ∃ s, s ∈ l ∧ in_department k s.
Proof.
  unfold departments. by rewrite sorted_perm, elem_of_remove_dups, list_elem_of_omap.
Qed.

Lemma emits_add_senior_year l :
  emits (add_senior_year l) (senior_year_out l).
Proof.
  apply emits_intro. intros n s b. unfold add_senior_year, senior_year_out.
  destruct (for_fold_groups "department" l [] ∅ (Document n s b)
              (groups_of_empty _)) as [(Hl & d & Hd & Hg)|[Hl Hd]].
  - rewrite decide_True by done. erewrite bind_inr; [|exact Hd].
    simpl in Hg. rewrite (sorted_keys_departments l d Hl Hg).
    apply emits_elim, emits_for_each. intros k Hk.
    apply elem_of_departments in Hk.
    rewrite Hg, filter_key_Forall by done.
    rewrite nonempty_is_Some by (by apply filter_nonempty_elem).
    apply emits_seq; [by apply emits_add_black_heading; lia|].
    apply emits_add_senior_student_list.
  - rewrite decide_False by done. apply bind_inl. exact Hd.
Qed.

Lemma emits_year (student_list : list student) d y :
  Forall (has_key "year") student_list →
  groups_of year_of student_list d →
  emits
    match d !! y with
    | None | Some [] => mret ()
    | Some year_student_list =>
        add_black_heading (y +:+ " Year") 2;;
        if decide (y = "First") then add_first_year_table year_student_list
        else add_senior_year year_student_list
    end
    (year_out student_list y).
Proof.
  intros Hl Hg. unfold year_out. rewrite Hg. unfold year_of.
  rewrite filter_key_Forall by done.
  change (filter (λ s : student, s !! "year" = Some y) student_list)
    with (filter (in_year y) student_list).
  destruct (filter (in_year y) student_list) as [|s0 g]; [apply emits_ret|].
  cbn [nonempty]. apply emits_seq; [by apply emits_add_black_heading; lia|].
  destruct (decide (y = "First")).
  - apply emits_add_first_year_table.
  - apply emits_add_senior_year.
Qed.

Lemma emits_add_category students c :
  emits (add_category (categorize students) c) (category_out students c).
Proof.
  unfold add_category, category_out. rewrite (categorize_groups students c).
  change (filter (λ s : student, category_of s = c) students)
    with (filter (in_category c) students).
  destruct (filter (in_category c) students) as [|s0 g]; [apply emits_ret|].
  cbn [nonempty]. set (l := s0 :: g). apply emits_seq.
  { unfold category_heading_out. destruct (decide (c = "Uncategorized")).
    - apply emits_ret.
    - by apply emits_add_black_heading; lia. }
  apply emits_intro. intros n s b. unfold years_out.
  destruct (for_fold_groups "year" l [] ∅ (Document n s b)
              (groups_of_empty _)) as [(Hl & d & Hd & Hg)|[Hl Hd]].
  - rewrite decide_True by done. erewrite bind_inr; [|exact Hd].
    apply emits_elim, emits_for_each. intros y _. by apply emits_year.
  - rewrite decide_False by done. apply bind_inl. exact Hd.
Qed.

(** The refinement: the program returns the layout, or its error. *)
Lemma generate_student_document_layout students :
  generate_student_document students =
  match layout students with
  | inl e => inl e
  | inr blocks => inr (finished blocks)
  end.
Proof.
  unfold generate_student_document, assemble, layout.
  erewrite bind_inr; [|reflexivity].
  rewrite (emits_elim _ (out_app (heading_out 0 "VOLUNTEERS LIST")
             (out_concat (category_out students <$> category_order)))).
  - by destruct (out_app _ _).
  - apply emits_seq; [by apply emits_add_black_heading; lia|].
    apply emits_for_each. intros c _. apply emits_add_category.
Qed.
(** ** Text that a run accepts *)

Lemma str_app_cons x (a b : string) : String x a +:+ b = String x (a +:+ b).
Proof. done. Qed.

Lemma str_app_nil_l (a : string) : "" +:+ a = a.
Proof. done. Qed.

Lemma str_app_assoc (a b c : string) : (a +:+ b) +:+ c = a +:+ b +:+ c.
Proof.
  induction a as [|x a IH]; [done|]. by rewrite !str_app_cons, IH.
Qed.

Lemma str_app_nil_r (a : string) : a +:+ "" = a.
Proof.
  induction a as [|x a IH]; [done|]. by rewrite str_app_cons, IH.
Qed.

Lemma printable_flushes c : printable c = true → flushes c = false.
Proof.
  unfold printable, flushes. intros H. apply bool_decide_eq_true in H.
  apply bool_decide_eq_false. lia.
Qed.

Lemma printable_valid c :
  printable c = true → bool_decide (128 ≤ code c)%N = false ∧ xmlIsChar_ch c = true.
Proof.
  unfold printable, xmlIsChar_ch. intros H. apply bool_decide_eq_true in H. split.
  - apply bool_decide_eq_false. lia.
  - apply bool_decide_eq_true. lia.
Qed.

Lemma all_printable_app (a b : string) :
  all_printable (a +:+ b) = all_printable a && all_printable b.
Proof.
  induction a as [|c a IH]; [done|].
  rewrite str_app_cons. cbn [all_printable]. by rewrite IH, andb_assoc.
Qed.

Lemma is_valid_printable s : all_printable s = true → is_valid_xml_utf8 s = true.
Proof.
  induction s as [|c s IH]; [done|]. cbn [all_printable is_valid_xml_utf8].
  intros [Hc Hs]%andb_true_iff. destruct (printable_valid c Hc) as [-> ->].
  by rewrite IH.
Qed.

(** Printable text goes to the buffer. *)
Lemma add_text_printable bfr (a b : string) :
  all_printable a = true → add_text bfr (a +:+ b) = add_text (bfr +:+ a) b.
Proof.
  revert bfr. induction a as [|c a IH]; intros bfr H.
  - by rewrite str_app_nil_l, str_app_nil_r.
  - cbn [all_printable] in H. apply andb_true_iff in H as [Hc Ha].
    rewrite str_app_cons. cbn [add_text]. rewrite (printable_flushes c Hc).
    rewrite IH by done. by rewrite str_app_assoc.
Qed.

(** A tab at the end flushes what the end of the text would flush. *)
Lemma add_text_tab bfr (x : string) : add_text bfr (x +:+ tab) = add_text bfr x.
Proof.
  revert bfr. induction x as [|c x IH]; intros bfr.
  - rewrite str_app_nil_l. cbn. by rewrite andb_true_r.
  - rewrite str_app_cons. cbn [add_text]. by rewrite !IH.
Qed.

Lemma xml_compatible_printable s : all_printable s = true → xml_compatible s = true.
Proof.
  intros H. unfold xml_compatible. rewrite <- (str_app_nil_r s).
  rewrite add_text_printable by done. cbn [add_text].
  rewrite str_app_nil_l. by apply is_valid_printable.
Qed.

Lemma pretty_N_go_printable x s :
  all_printable s = true → all_printable (pretty_N_go x s) = true.
Proof.
  revert s. induction (N.lt_wf_0 x) as [x _ IH]; intros s Hs.
  assert (x = 0 ∨ 0 < x)%N as [->|Hx] by lia.
  - by rewrite pretty_N_go_0.
  - rewrite pretty_N_go_step by done. apply IH.
    { by apply N.div_lt. }
    cbn [all_printable]. rewrite Hs, andb_true_r.
    unfold pretty_N_char. by repeat case_match.
Qed.

Lemma pretty_printable (i : nat) : all_printable (pretty i) = true.
Proof.
  unfold pretty, pretty_nat, pretty, pretty_N.
  destruct (decide (N.of_nat i = 0%N)); [done|].
  by apply pretty_N_go_printable.
Qed.

Lemma xml_compatible_pretty (i : nat) : xml_compatible (pretty i) = true.
Proof. apply xml_compatible_printable, pretty_printable. Qed.

(** The runs of a list paragraph are accepted when the name and the
    registration number are. *)
Lemma xml_compatible_numbered (i : nat) (name : string) :
  xml_compatible (pretty i +:+ "." +:+ tab +:+ name +:+ tab) = xml_compatible name.
Proof.
  unfold xml_compatible. rewrite add_text_printable by apply pretty_printable.
  rewrite str_app_nil_l.
  change ("." +:+ tab +:+ name +:+ tab) with (("." +:+ tab) +:+ name +:+ tab).
  rewrite <- (str_app_assoc _ name tab), add_text_tab.
  change (("." +:+ tab) +:+ name) with (String "." (String (ascii_of_nat 9) name)).
  cbn [add_text].
  replace (flushes ".") with false by done.
  replace (flushes (ascii_of_nat 9)) with true by done.
  rewrite is_valid_printable; [done|].
  rewrite all_printable_app, pretty_printable. done.
Qed.

Lemma xml_compatible_tab (text : string) :
  xml_compatible (tab +:+ text) = xml_compatible text.
Proof. done. Qed.

(** ** The layout in closed form *)

Lemma out_concat_cons {A} (o : error + list A) os :
  out_concat (o :: os) = out_app o (out_concat os).
Proof. done. Qed.

Lemma out_concat_ok {A B} (f : A → error + list B) (g : A → list B) (l : list A) :
  (∀ x, x ∈ l → f x = inr (g x)) →
  out_concat (f <$> l) = inr (flat_map g l).
Proof.
  induction l as [|x l IH]; intros H; [done|].
  rewrite fmap_cons, out_concat_cons.
  rewrite (H x) by left. rewrite IH; [done|].
  intros y Hy. apply H. by right.
Qed.

Lemma out_concat_error {A B} (f : A → error + list B) (l : list A) x :
  x ∈ l → is_error (f x) → is_error (out_concat (f <$> l)).
Proof.
  intros Hx [e He]. induction l as [|y l IH]; [by apply elem_of_nil in Hx|].
  rewrite fmap_cons, out_concat_cons.
  destruct (f y) as [e'|b] eqn:Hy; [by eexists|].
  apply elem_of_cons in Hx as [->|Hx]; [congruence|].
  destruct (IH Hx) as [e' ->]. by eexists.
Qed.

Lemma out_concat_imap_ok {A B} (f : nat → A → error + list B)
    (g : nat → A → B) (l : list A) :
  (∀ i x, l !! i = Some x → f i x = inr [g i x]) →
  out_concat (imap f l) = inr (imap g l).
Proof.
  revert f g. induction l as [|x l IH]; intros f g H; [done|].
  rewrite imap_cons, out_concat_cons.
  rewrite (H 0 x) by done. rewrite (IH _ (g ∘ S)); [done|].
  intros i y Hy. by apply (H (S i)).
Qed.

Lemma out_concat_imap_error {A B} (f : nat → A → error + list B) (l : list A) i x :
  l !! i = Some x → is_error (f i x) → is_error (out_concat (imap f l)).
Proof.
  revert f i. induction l as [|y l IH]; intros f i Hi He; [done|].
  rewrite imap_cons, out_concat_cons.
  destruct i as [|i].
  - injection Hi as ->. destruct He as [e ->]. by eexists.
  - destruct (f 0 y) as [e'|b]; [by eexists|].
    destruct (IH (f ∘ S) i Hi He) as [e' ->]. by eexists.
Qed.

Lemma field_Some (s : student) key : has_key key s → field s key = inr (default "" (s !! key)).
Proof. intros [v Hv]. unfold field. by rewrite Hv. Qed.

Lemma field_None (s : student) key : ¬ has_key key s → field s key = inl (KeyError key).
Proof.
  intros H. unfold field. destruct (s !! key) eqn:Hs; [|done].
  destruct H. by eexists.
Qed.

(** The answer of a list entry, case by case, in the order in which the
    program reads and writes. *)
Lemma senior_entry_eq i s :
  senior_entry i s =
  if decide (has_key "full_name" s) then
    if xml_compatible (name_of s) then
      if decide (has_key "registration_number" s) then
        if xml_compatible (registration_of s) then
          inr [BParagraph (senior_paragraph i (name_of s) (registration_of s))]
        else inl ValueError
      else inl (KeyError "registration_number")
    else inl ValueError
  else inl (KeyError "full_name").
Proof.
  unfold senior_entry, run_out.
  destruct (decide (has_key "full_name" s)) as [Hn|Hn];
    [rewrite (field_Some s "full_name") by done
    |by rewrite (field_None s "full_name") by done].
  cbn [mbind result_bind]. fold (name_of s). rewrite xml_compatible_numbered.
  destruct (xml_compatible (name_of s)); [|done].
  destruct (decide (has_key "registration_number" s)) as [Hr|Hr];
    [rewrite (field_Some s "registration_number") by done
    |by rewrite (field_None s "registration_number") by done].
  cbn [mbind result_bind]. fold (registration_of s). rewrite xml_compatible_tab.
  by destruct (xml_compatible (registration_of s)).
Qed.

Lemma senior_entry_ok i s :
  senior_ok s →
  senior_entry i s = inr [BParagraph (senior_paragraph i (name_of s) (registration_of s))].
Proof.
  intros ([Hn Hr] & Htn & Htr). unfold text_ok in *.
  rewrite senior_entry_eq, !decide_True by done. by rewrite Htn, Htr.
Qed.

Lemma senior_entry_error i s : ¬ senior_ok s → is_error (senior_entry i s).
Proof.
  intros H. rewrite senior_entry_eq.
  destruct (decide (has_key "full_name" s)) as [Hn|Hn]; [|by eexists].
  destruct (xml_compatible (name_of s)) eqn:Htn; [|by eexists].
  destruct (decide (has_key "registration_number" s)) as [Hr|Hr]; [|by eexists].
  destruct (xml_compatible (registration_of s)) eqn:Htr; [|by eexists].
  by destruct H.
Qed.

Lemma senior_list_out_ok l :
  Forall senior_ok l → senior_list_out l = inr (senior_paragraphs l).
Proof.
  intros H. apply out_concat_imap_ok. intros i s Hs.
  apply senior_entry_ok. rewrite Forall_forall in H.
  apply H. by eapply list_elem_of_lookup_2.
Qed.

Lemma senior_list_out_error l : ¬ Forall senior_ok l → is_error (senior_list_out l).
Proof.
  intros H. apply not_Forall_Exists in H; [|apply _].
  apply Exists_exists in H as (s & Hs & Hns).
  apply list_elem_of_lookup in Hs as [i Hi].
  eapply out_concat_imap_error; [exact Hi|]. by apply senior_entry_error.
Qed.

(** The answer of a table row, case by case. *)
Lemma data_row_eq i s :
  data_row i s =
  if decide (has_key "full_name" s) then
    if decide (has_key "registration_number" s) then
      if decide (has_key "department" s) then
        if xml_compatible (name_of s) && xml_compatible (registration_of s) &&
           xml_compatible (default "N/A" (s !! "section")) &&
           xml_compatible (department_of s)
        then inr [table_row i s]
        else inl ValueError
      else inl (KeyError "department")
    else inl (KeyError "registration_number")
  else inl (KeyError "full_name").
Proof.
  unfold data_row.
  destruct (decide (has_key "full_name" s)) as [Hn|Hn];
    [rewrite (field_Some s "full_name") by done
    |by rewrite (field_None s "full_name") by done].
  destruct (decide (has_key "registration_number" s)) as [Hr|Hr];
    [rewrite (field_Some s "registration_number") by done
    |by rewrite (field_None s "registration_number") by done].
  destruct (decide (has_key "department" s)) as [Hd|Hd];
    [rewrite (field_Some s "department") by done
    |by rewrite (field_None s "department") by done].
  cbn [mbind result_bind forallb]. rewrite xml_compatible_pretty.
  fold (name_of s) (registration_of s) (department_of s).
  cbn [andb]. rewrite andb_true_r, !andb_assoc.
  by destruct (_ && _).
Qed.

Lemma row_ok_texts s :
  row_ok s →
  xml_compatible (name_of s) && xml_compatible (registration_of s) &&
  xml_compatible (default "N/A" (s !! "section")) &&
  xml_compatible (department_of s) = true.
Proof.
  intros (_ & H1 & H2 & H3 & H4). unfold text_ok in *. by rewrite H1, H2, H3, H4.
Qed.

Lemma data_row_ok i s : row_ok s → data_row i s = inr [table_row i s].
Proof.
  intros H. pose proof (row_ok_texts s H) as Ht.
  destruct H as ([[Hn Hr] Hd] & _).
  rewrite data_row_eq, !decide_True by done. by rewrite Ht.
Qed.

Lemma data_row_error i s : ¬ row_ok s → is_error (data_row i s).
Proof.
  intros H. rewrite data_row_eq.
  destruct (decide (has_key "full_name" s)) as [Hn|Hn]; [|by eexists].
  destruct (decide (has_key "registration_number" s)) as [Hr|Hr]; [|by eexists].
  destruct (decide (has_key "department" s)) as [Hd|Hd]; [|by eexists].
  destruct (_ && _) eqn:Ht; [|by eexists].
  apply andb_true_iff in Ht as [[[H1 H2]%andb_true_iff H3]%andb_true_iff H4].
  by destruct H.
Qed.

Lemma row_ok_department s : row_ok s → has_key "department" s.
Proof. by intros ([_ ?] & _). Qed.

Lemma sort_by_department_perm l : sort_by_department l ≡ₚ l.
Proof.
  unfold sort_by_department. rewrite sort_keyed_perm.
  rewrite <- list_fmap_compose. by rewrite list_fmap_id.
Qed.

Lemma first_year_table_out_ok l :
  l ≠ [] → Forall row_ok l →
  first_year_table_out l = inr [BTable (first_year_table (table_rows l))].
Proof.
  intros Hne H. unfold first_year_table_out. destruct l as [|s0 l']; [done|].
  set (l := s0 :: l') in *. rewrite decide_True.
  2: { eapply Forall_impl; [exact H|]. apply row_ok_department. }
  rewrite (out_concat_imap_ok _ (λ i, table_row (S i))); [done|].
  intros i s Hs. apply data_row_ok.
  rewrite <- sort_by_department_perm in H. rewrite Forall_forall in H.
  apply H. by eapply list_elem_of_lookup_2.
Qed.

Lemma first_year_table_out_error l :
  l ≠ [] → ¬ Forall row_ok l → is_error (first_year_table_out l).
Proof.
  intros Hne H. unfold first_year_table_out. destruct l as [|s0 l']; [done|].
  set (l := s0 :: l') in *.
  destruct (decide (Forall (has_key "department") l)); [|by eexists].
  rewrite <- sort_by_department_perm in H.
  apply not_Forall_Exists in H; [|apply _].
  apply Exists_exists in H as (s & Hs & Hns).
  apply list_elem_of_lookup in Hs as [i Hi].
  destruct (out_concat_imap_error (λ i, data_row (S i)) _ i s Hi) as [e ->];
    [by apply data_row_error|by eexists].
Qed.

Lemma out_app_error_l {A} (o1 o2 : error + list A) :
  is_error o1 → is_error (out_app o1 o2).
Proof. intros [e ->]. by eexists. Qed.

Lemma out_app_error_r {A} (o1 o2 : error + list A) :
  is_error o2 → is_error (out_app o1 o2).
Proof. intros [e ->]. destruct o1; by eexists. Qed.

Lemma is_error_inr {A} (x : A) : ¬ is_error (inr x : error + A).
Proof. by intros [e ?]. Qed.

Lemma heading_out_ok level text :
  text ≠ "" → text_ok text → heading_out level text = inr [heading level text].
Proof.
  intros H Ht. unfold heading_out, run_out. rewrite decide_False by done.
  by rewrite Ht.
Qed.

Lemma heading_out_error level text :
  text = "" ∨ ¬ text_ok text → is_error (heading_out level text).
Proof.
  unfold heading_out, run_out, text_ok. intros H.
  destruct (decide (text = "")); [by eexists|].
  destruct (xml_compatible text); [|by eexists]. by destruct H.
Qed.

Lemma year_heading_ne y : y +:+ " Year" ≠ "".
Proof. by destruct y. Qed.

Lemma year_heading_ok y : y ∈ year_order → text_ok (y +:+ " Year").
Proof.
  intros H. by repeat (apply elem_of_cons in H as [->|H]; [done|]);
  apply elem_of_nil in H.
Qed.

Lemma category_ne c : c ∈ category_order → c ≠ "".
Proof. intros H ->. by repeat (apply elem_of_cons in H as [?|H]; [done|]);
  apply elem_of_nil in H. Qed.

Lemma category_text_ok c : c ∈ category_order → text_ok c.
Proof.
  intros H. by repeat (apply elem_of_cons in H as [->|H]; [done|]);
  apply elem_of_nil in H.
Qed.

Lemma department_ok_in d s :
  in_department d s → department_ok s → d ≠ "" ∧ text_ok d.
Proof.
  unfold in_department, department_ok, department_of. intros -> (_ & ? & ?). done.
Qed.

Lemma senior_year_out_ok g :
  Forall (year_ok "Second") g →
  senior_year_out g = inr (flat_map (department_section g) (departments g)).
Proof.
  intros H. unfold senior_year_out. rewrite decide_True.
  2: { eapply Forall_impl; [exact H|]. by intros s [[? _] _]. }
  apply out_concat_ok. intros d Hd. unfold department_out, department_section.
  apply elem_of_departments in Hd as (s & Hs & Hsd).
  rewrite Forall_forall in H.
  destruct (department_ok_in d s Hsd) as [Hne Hok]; [by destruct (H s Hs)|].
  rewrite heading_out_ok by done.
  rewrite senior_list_out_ok; [done|].
  apply Forall_forall. intros s' Hs'. apply list_elem_of_filter in Hs' as [_ Hs'].
  by destruct (H s' Hs') as [_ ?].
Qed.

Lemma senior_year_out_error g :
  ¬ Forall (year_ok "Second") g → is_error (senior_year_out g).
Proof.
  intros H. unfold senior_year_out.
  destruct (decide (Forall (has_key "department") g)) as [Hd|Hd]; [|by eexists].
  apply not_Forall_Exists in H; [|apply _].
  apply Exists_exists in H as (s & Hs & Hns).
  rewrite Forall_forall in Hd. destruct (Hd s Hs) as [d Hsd].
  apply (out_concat_error _ _ d).
  { apply elem_of_departments. eauto. }
  unfold department_out.
  destruct (decide (d = "")) as [->|Hne].
  { apply out_app_error_l, heading_out_error. by left. }
  destruct (decide (text_ok d)) as [Hok|Hno].
  2: { apply out_app_error_l, heading_out_error. by right. }
  apply out_app_error_r, senior_list_out_error. intros Hf. apply Hns.
  rewrite Forall_forall in Hf. split.
  - unfold department_ok, department_of. rewrite Hsd. simpl.
    split_and!; [by eexists|done|done].
  - apply Hf. by apply list_elem_of_filter.
Qed.

Lemma year_ok_senior y s : y ≠ "First" → year_ok y s ↔ year_ok "Second" s.
Proof. unfold year_ok. intros Hy. by rewrite !decide_False by done. Qed.

Lemma year_ok_first s : year_ok "First" s ↔ row_ok s.
Proof. done. Qed.

Lemma year_ok_department y s : year_ok y s → has_key "department" s.
Proof.
  unfold year_ok. destruct (decide (y = "First")).
  - apply row_ok_department.
  - by intros [[? _] _].
Qed.

Lemma year_ok_department_ne y s :
  y ≠ "First" → year_ok y s → s !! "department" ≠ Some "".
Proof.
  intros Hy. unfold year_ok. rewrite decide_False by done.
  intros [(_ & Hne & _) _] Hs. apply Hne. unfold department_of. by rewrite Hs.
Qed.

Lemma year_out_ok l y :
  y ∈ year_order →
  Forall (year_ok y) (filter (in_year y) l) →
  year_out l y = inr (year_section l y).
Proof.
  intros Hin H. unfold year_out, year_section.
  destruct (filter (in_year y) l) as [|s0 g'] eqn:Hg; [done|].
  rewrite heading_out_ok by (apply year_heading_ne || by apply year_heading_ok).
  destruct (decide (y = "First")) as [->|Hy].
  - by rewrite first_year_table_out_ok.
  - rewrite senior_year_out_ok; [done|].
    eapply Forall_impl; [exact H|]. intros s. by apply year_ok_senior.
Qed.

Lemma year_out_error l y :
  ¬ Forall (year_ok y) (filter (in_year y) l) → is_error (year_out l y).
Proof.
  intros H. unfold year_out.
  destruct (filter (in_year y) l) as [|s0 g'] eqn:Hg; [by destruct H|].
  apply out_app_error_r. destruct (decide (y = "First")) as [->|Hy].
  - by apply first_year_table_out_error.
  - apply senior_year_out_error. intros Hf. apply H.
    eapply Forall_impl; [exact Hf|]. intros s. by apply year_ok_senior.
Qed.

Lemma in_year_year_of y s : in_year y s → year_of s = y.
Proof. unfold in_year, year_of. by intros ->. Qed.

Lemma record_ok_year l y :
  y ∈ year_order → Forall record_ok l → Forall (year_ok y) (filter (in_year y) l).
Proof.
  intros Hy H. apply Forall_forall. intros s Hs.
  apply list_elem_of_filter in Hs as [Hsy Hs]. rewrite Forall_forall in H.
  destruct (H s Hs) as [_ Hr]. apply in_year_year_of in Hsy. subst y.
  by apply Hr.
Qed.

Lemma category_out_ok students c :
  c ∈ category_order →
  Forall record_ok (filter (in_category c) students) →
  category_out students c = inr (category_section students c).
Proof.
  intros Hc H. unfold category_out, category_section.
  destruct (filter (in_category c) students) as [|s0 l'] eqn:Hl; [done|].
  set (l := s0 :: l') in *.
  assert (category_heading_out c = inr (category_heading c)) as ->.
  { unfold category_heading_out, category_heading.
    destruct (decide (c = "Uncategorized")); [done|].
    by apply heading_out_ok; [apply category_ne|apply category_text_ok]. }
  unfold years_out. rewrite decide_True.
  2: { eapply Forall_impl; [exact H|]. by intros s [? _]. }
  rewrite (out_concat_ok _ (year_section l)); [done|].
  intros y Hy. by apply year_out_ok, record_ok_year.
Qed.

Lemma category_out_error students c :
  ¬ Forall record_ok (filter (in_category c) students) →
  is_error (category_out students c).
Proof.
  intros H. unfold category_out.
  destruct (filter (in_category c) students) as [|s0 l'] eqn:Hl; [by destruct H|].
  set (l := s0 :: l') in *. apply out_app_error_r. unfold years_out.
  destruct (decide (Forall (has_key "year") l)) as [Hy|Hy]; [|by eexists].
  apply not_Forall_Exists in H; [|apply _].
  apply Exists_exists in H as (s & Hs & Hns).
  rewrite Forall_forall in Hy. pose proof (Hy s Hs) as Hsy.
  destruct (decide (year_of s ∈ year_order)) as [Hin|Hnin].
  2: { destruct Hns. by split. }
  apply (out_concat_error _ _ (year_of s)); [done|].
  apply year_out_error. intros Hf. apply Hns. split; [done|]. intros _.
  rewrite Forall_forall in Hf.
  apply (Hf s). apply list_elem_of_filter. split; [|done].
  destruct Hsy as [v Hv]. unfold in_year, year_of. by rewrite Hv.
Qed.

Lemma renderable_category students c :
  c ∈ category_order → renderable students →
  Forall record_ok (filter (in_category c) students).
Proof.
  intros Hc H. apply Forall_forall. intros s Hs.
  apply list_elem_of_filter in Hs as [Hsc Hs]. unfold renderable in H.
  rewrite Forall_forall in H. apply (H s Hs). unfold in_category in Hsc.
  by rewrite Hsc.
Qed.

(** The program runs to completion on exactly the renderable inputs, and then
    lays out [document_blocks]. *)
Lemma layout_ok students :
  renderable students → layout students = inr (document_blocks students).
Proof.
  intros H. unfold layout, document_blocks.
  rewrite heading_out_ok by done.
  rewrite (out_concat_ok _ (category_section students)); [done|].
  intros c Hc. by apply category_out_ok, renderable_category.
Qed.

Lemma layout_error students : ¬ renderable students → is_error (layout students).
Proof.
  intros H. unfold layout. apply out_app_error_r.
  apply not_Forall_Exists in H; [|apply _].
  apply Exists_exists in H as (s & Hs & Hns).
  destruct (decide (category_of s ∈ category_order)) as [Hc|Hc]; [|by destruct Hns].
  apply (out_concat_error _ _ (category_of s)); [done|].
  apply category_out_error. intros Hf. apply Hns. intros _.
  rewrite Forall_forall in Hf. apply Hf. by apply list_elem_of_filter.
Qed.

Lemma generate_student_document_ok students :
  renderable students →
  generate_student_document students = inr (finished (document_blocks students)).
Proof.
  intros H. by rewrite generate_student_document_layout, layout_ok.
Qed.

Lemma generate_student_document_error students :
  ¬ renderable students → is_error (generate_student_document students).
Proof.
  intros H. rewrite generate_student_document_layout.
  destruct (layout_error students H) as [e ->]. by eexists.
Qed.

Lemma generate_student_document_inr students doc :
  generate_student_document students = inr doc →
  renderable students ∧ doc = finished (document_blocks students).
Proof.
  intros H. destruct (decide (renderable students)) as [Hr|Hr].
  - rewrite generate_student_document_ok in H by done. by injection H as <-.
  - destruct (generate_student_document_error students Hr) as [e He]. congruence.
Qed.

(** ** The scenarios of the specification *)

Example scenario_A_document :
  generate_student_document scenario_A =
  inr (finished
    [heading 0 "VOLUNTEERS LIST"; heading 2 "First Year";
     BTable (first_year_table
       [text_cell None <$> ["1"; "Asha"; "SEC25CS001"; "N/A"; "CSE"]])]).
Proof. vm_compute. reflexivity. Qed.

Example scenario_B_document :
  generate_student_document scenario_B =
  inr (finished
    [heading 0 "VOLUNTEERS LIST"; heading 1 "Hostel"; heading 2 "Second Year";
     heading 3 "CSE"; BParagraph (senior_paragraph 1 "Chitra" "SEC24CS011");
     heading 3 "ECE"; BParagraph (senior_paragraph 1 "Bala" "SEC24EC007")]).
Proof. vm_compute. reflexivity. Qed.

Example scenario_D_error :
  generate_student_document
    [mk_student [("full_name", "Asha"); ("registration_number", "SEC24CS001");
                 ("year", "Second")]]
  = inl (KeyError "department").
Proof. vm_compute. reflexivity. Qed.

Example scenario_E_document :
  generate_student_document [] = inr (finished [heading 0 "VOLUNTEERS LIST"]).
Proof. vm_compute. reflexivity. Qed.

(** A senior whose department is the empty string: the department heading
    has no run, and colouring its first run raises. *)
Example empty_department_senior :
  generate_student_document
    [mk_student [("full_name", "Asha"); ("registration_number", "SEC24CS001");
                 ("department", ""); ("year", "Second")]]
  = inl IndexError.
Proof. vm_compute. reflexivity. Qed.

(** ** The table order *)

Lemma keyed_consistent_sorted {A} (f : A → string) (L : list (string * A)) :
  Forall (λ p, p.1 = f p.2) L →
  StronglySorted keyed_le L →
  StronglySorted (λ a b, str_le (f a) (f b)) (L.*2).
Proof.
  intros Hc Hs. induction Hs as [|p L Hs IH Hp]; simpl; [constructor|].
  inv Hc. constructor; [auto|].
  rewrite Forall_fmap. rewrite Forall_forall in *. intros q Hq. simpl.
  specialize (Hp q Hq). unfold keyed_le in Hp.
  rewrite <- H1. rewrite <- (H2 q Hq). done.
Qed.


Lemma decorate_consistent {A} (f : A → string) (l : list A) :
  Forall (λ p, p.1 = f p.2) ((λ x, (f x, x)) <$> l).
Proof. rewrite Forall_fmap. by apply Forall_forall. Qed.


Lemma sort_by_department_sorted l :
  StronglySorted (λ a b, str_le (department_of a) (department_of b))
                 (sort_by_department l).
Proof.
  apply keyed_consistent_sorted; [|apply sort_keyed_sorted].
  rewrite sort_keyed_perm. apply decorate_consistent.
Qed.


(** * The claims *)






Lemma record_ok_iff s :
  record_ok s ↔
  has_key "year" s ∧
  (year_of s = "First" → row_ok s) ∧
  (year_of s ∈ ["Fourth"; "Third"; "Second"] → department_ok s ∧ senior_ok s).
Proof.
  unfold record_ok, year_ok, year_order. split.
  - intros [Hy H]. split_and!; [done|..].
    + intros Hf. rewrite Hf in H. apply H. by repeat constructor.
    + intros Hin.
      assert (year_of s ≠ "First") as Hne.
      { intros Hf. rewrite Hf in Hin.
        by repeat (apply elem_of_cons in Hin as [?|Hin]; [done|]);
        apply elem_of_nil in Hin. }
      rewrite decide_False in H by done. apply H.
      rewrite !elem_of_cons in Hin. rewrite !elem_of_cons. tauto.
  - intros (Hy & Hf & Hs). split; [done|]. intros Hin.
    destruct (decide (year_of s = "First")) as [He|Hne]; [auto|].
    apply Hs. rewrite !elem_of_cons in Hin. rewrite !elem_of_cons.
    rewrite elem_of_nil in Hin. tauto.
Qed.

Lemma record_ok_keys s :
  record_ok s → year_of s ∈ year_order → row_keys s.
Proof.
  intros [_ H] Hin. specialize (H Hin). unfold year_ok in H.
  destruct (decide (year_of s = "First")).
  - by destruct H.
  - destruct H as [(? & _) (? & _)]. by split.
Qed.

(** C7 (as amended).  [generate_student_document] returns a document
    whenever every record of an iterated category (absent, Hostel,
    Dayscholar or Uncategorized) has its [year] and, when that year is one of
    the four literals, has [full_name], [registration_number] and
    [department], the texts written for it being texts that a run accepts:
    the name, the registration number, the department and the section (or
    N/A) of a First year; the name, the registration number and the
    department, which must not be empty, of a Second, Third or Fourth year.
    It raises, returning no document, whenever some record of an iterated
    category lacks [year], or has one of the four years and lacks
    [full_name], [registration_number] or [department].  A record of another
    category, or with another year, is never read further and cannot raise,
    whatever keys it lacks. *)
Theorem generate_student_document_raises (students : list student) :
  ((∀ s, s ∈ students → category_of s ∈ category_order →
      has_key "year" s ∧
      (year_of s = "First" →
         (has_key "full_name" s ∧ has_key "registration_number" s ∧
          has_key "department" s) ∧
         xml_compatible (name_of s) = true ∧
         xml_compatible (registration_of s) = true ∧
         xml_compatible (default "N/A" (s !! "section")) = true ∧
         xml_compatible (department_of s) = true) ∧
      (year_of s ∈ ["Fourth"; "Third"; "Second"] →
         (has_key "full_name" s ∧ has_key "registration_number" s ∧
          has_key "department" s) ∧
         xml_compatible (name_of s) = true ∧
         xml_compatible (registration_of s) = true ∧
         department_of s ≠ "" ∧
         xml_compatible (department_of s) = true)) →
   ∃ doc, generate_student_document students = inr doc) ∧
  ((∃ s, s ∈ students ∧ category_of s ∈ category_order ∧
         (¬ has_key "year" s ∨
          (year_of s ∈ year_order ∧
           ¬ (has_key "full_name" s ∧ has_key "registration_number" s ∧
              has_key "department" s)))) →
   ∃ e, generate_student_document students = inl e).
Proof.
  split.
  - intros H. eexists. apply generate_student_document_ok.
    apply Forall_forall. intros s Hs Hc. apply record_ok_iff.
    destruct (H s Hs Hc) as (Hy & Hf & Hsen). split_and!; [done|..].
    + intros Hyf. destruct (Hf Hyf) as ((? & ? & ?) & ? & ? & ? & ?).
      by repeat split.
    + intros Hys. destruct (Hsen Hys) as ((? & ? & ?) & ? & ? & ? & ?).
      by repeat split.
  - intros (s & Hs & Hc & Hbad). apply generate_student_document_error.
    intros Hr. unfold renderable in Hr. rewrite Forall_forall in Hr.
    pose proof (Hr s Hs Hc) as Hok.
    destruct Hbad as [Hbad|[Hin Hbad]]; [by destruct Hok|].
    destruct (record_ok_keys s Hok Hin) as [[? ?] ?]. by apply Hbad.
Qed.

(** C7 as stated fails in both directions: a record without [full_name]
    does not make the program raise when its year is not one of the four
    literals, and a record with its four mandatory keys makes it raise when
    its name holds a form feed. *)
Lemma generate_student_document_raises_not_iff_missing_key :
  (¬ has_key "full_name" nameless_student ∧
   ∃ doc, generate_student_document [nameless_student] = inr doc) ∧
  ((has_key "full_name" form_feed_student ∧
    has_key "registration_number" form_feed_student ∧
    has_key "department" form_feed_student ∧
    has_key "year" form_feed_student) ∧
   generate_student_document [form_feed_student] = inl ValueError).
Proof.
  split; split.
  - intros [v Hv]. vm_compute in Hv. discriminate.
  - eexists. vm_compute. reflexivity.
  - apply (bool_decide_unpack _). vm_compute. reflexivity.
  - vm_compute. reflexivity.
Qed.

(** ** Dropping a record that is not rendered *)

Lemma strip_out_app o1 o2 :
  strip_out (out_app o1 o2) = out_app (strip_out o1) (strip_out o2).
Proof.
  destruct o1 as [|b1]; [done|]. destruct o2 as [|b2]; [done|]. simpl.
  unfold without_category_headings. by rewrite filter_app.
Qed.

Lemma strip_out_concat os :
  strip_out (out_concat os) = out_concat (strip_out <$> os).
Proof.
  induction os as [|o os IH]; [done|].
  by rewrite fmap_cons, !out_concat_cons, strip_out_app, IH.
Qed.

Lemma out_concat_ext {A B} (f g : A → error + list B) (l : list A) :
  (∀ x, x ∈ l → f x = g x) → out_concat (f <$> l) = out_concat (g <$> l).
Proof.
  intros H. f_equal. apply list_fmap_ext. intros i x Hx.
  apply H. by eapply list_elem_of_lookup_2.
Qed.

Lemma years_out_nil : years_out [] = inr [].
Proof. done. Qed.

Section drop.
Context (r : student) (y : string).
Hypothesis r_year : r !! "year" = Some y.
Hypothesis y_unknown : y ∉ year_order.

Lemma filter_year_drop b1 b2 y' :
  y' ∈ year_order →
  filter (in_year y') (b1 ++ r :: b2) = filter (in_year y') (b1 ++ b2).
Proof using r_year y_unknown.
  intros Hy'. rewrite !filter_app, filter_cons_False; [done|].
  unfold in_year. rewrite r_year. intros [= ->]. done.
Qed.

Lemma years_out_drop b1 b2 : years_out (b1 ++ r :: b2) = years_out (b1 ++ b2).
Proof using r_year y_unknown.
  unfold years_out.
  assert (Forall (has_key "year") (b1 ++ r :: b2) ↔
          Forall (has_key "year") (b1 ++ b2)) as Hiff.
  { rewrite !Forall_app, Forall_cons.
    assert (has_key "year" r) by (by exists y). tauto. }
  destruct (decide (Forall (has_key "year") (b1 ++ r :: b2))) as [H|H].
  - rewrite decide_True by (by apply Hiff). apply out_concat_ext.
    intros y' Hy'. unfold year_out. by rewrite filter_year_drop.
  - by rewrite decide_False by (by rewrite <- Hiff).
Qed.

Lemma category_out_drop_other l1 l2 c :
  c ≠ category_of r →
  category_out (l1 ++ r :: l2) c = category_out (l1 ++ l2) c.
Proof using Type.
  intros Hc. unfold category_out.
  rewrite !filter_app, filter_cons_False; [done|].
  unfold in_category. congruence.
Qed.

Lemma category_out_drop_same l1 l2 :
  category_out (l1 ++ r :: l2) (category_of r) =
  out_app (category_heading_out (category_of r))
          (years_out (filter (in_category (category_of r)) (l1 ++ l2))).
Proof using r_year y_unknown.
  unfold category_out. rewrite !filter_app, filter_cons_True by done.
  destruct (filter (in_category (category_of r)) l1) as [|a b1].
  - cbn [app]. f_equal. apply (years_out_drop [] _).
  - cbn [app]. f_equal. apply (years_out_drop (a :: b1) _).
Qed.

Lemma category_out_drop_shared l1 l2 s :
  s ∈ l1 ++ l2 → category_of s = category_of r →
  category_out (l1 ++ r :: l2) (category_of r) =
  category_out (l1 ++ l2) (category_of r).
Proof using r_year y_unknown.
  intros Hs Hc. rewrite category_out_drop_same. unfold category_out.
  destruct (filter _ (l1 ++ l2)) as [|s0 g] eqn:Hf; [|done].
  exfalso. eapply (filter_nil_not_elem_of _ _ s); [exact Hf|done|done].
Qed.

Lemma category_out_drop_strip l1 l2 c :
  c ∈ category_order →
  strip_out (category_out (l1 ++ r :: l2) c) =
  strip_out (category_out (l1 ++ l2) c).
Proof using r_year y_unknown.
  intros Hc. destruct (decide (c = category_of r)) as [->|Hne];
    [|by rewrite category_out_drop_other].
  rewrite category_out_drop_same. unfold category_out.
  destruct (filter _ (l1 ++ l2)) as [|s0 g] eqn:Hf; [|done].
  rewrite years_out_nil, out_app_nil_r. unfold category_heading_out.
  destruct (decide (category_of r = "Uncategorized")); [done|].
  rewrite heading_out_ok by (by apply category_ne || by apply category_text_ok). simpl.
  unfold without_category_headings.
  by rewrite filter_cons_False by (intros Hh; by apply Hh).
Qed.

Lemma category_out_drop_exact l1 l2 c :
  c ∈ category_order →
  category_of r ∉ ["Hostel"; "Dayscholar"] ∨
    (∃ s, s ∈ l1 ++ l2 ∧ category_of s = category_of r) →
  category_out (l1 ++ r :: l2) c = category_out (l1 ++ l2) c.
Proof using r_year y_unknown.
  intros Hc H. destruct (decide (c = category_of r)) as [->|Hne];
    [|by rewrite category_out_drop_other].
  destruct H as [H|(s & Hs & Hsc)]; [|by eapply category_out_drop_shared].
  rewrite category_out_drop_same. unfold category_out.
  destruct (filter _ (l1 ++ l2)) as [|s0 g] eqn:Hf; [|done].
  rewrite years_out_nil, out_app_nil_r. unfold category_heading_out.
  destruct (decide (category_of r = "Uncategorized")); [done|].
  exfalso. apply H. unfold category_order in Hc.
  apply elem_of_cons in Hc as [->|Hc]; [left|].
  apply elem_of_cons in Hc as [->|Hc]; [right; left|].
  by apply list_elem_of_singleton in Hc.
Qed.
End drop.

(** C10.  A record whose [year] is present but is none of Fourth, Third,
    Second, First (the empty string in particular) is not rendered and
    raises nothing: with or without it, the program raises the same error or
    returns documents with the same title, year headings, department
    headings, tables and list paragraphs.  The two documents are equal unless
    the record is the only one of the Hostel or Dayscholar category, in which
    case it leaves that category's heading, with nothing under it. *)
Theorem generate_student_document_unknown_year
    (l1 l2 : list student) (r : student) (y : string) :
  r !! "year" = Some y → y ∉ year_order →
  strip_document (generate_student_document (l1 ++ r :: l2))
    = strip_document (generate_student_document (l1 ++ l2)) ∧
  (category_of r ∉ ["Hostel"; "Dayscholar"] ∨
     (∃ s, s ∈ l1 ++ l2 ∧ category_of s = category_of r) →
   generate_student_document (l1 ++ r :: l2)
     = generate_student_document (l1 ++ l2)).
Proof.
  intros Hy Hn. rewrite !generate_student_document_layout. split.
  - transitivity (strip_out (layout (l1 ++ r :: l2)));
      [by destruct (layout _)|].
    transitivity (strip_out (layout (l1 ++ l2)));
      [|by destruct (layout _)].
    unfold layout. rewrite !strip_out_app, !strip_out_concat. f_equal.
    rewrite <- !list_fmap_compose. apply out_concat_ext. intros c Hc. simpl.
    by eapply category_out_drop_strip.
  - intros H. unfold layout.
    rewrite (out_concat_ext (category_out (l1 ++ r :: l2))
                            (category_out (l1 ++ l2))); [done|].
    intros c Hc. by eapply category_out_drop_exact.
Qed.

Lemma generate_student_document_unknown_year_witness :
  strip_document (generate_student_document ([] ++ yearless_student :: scenario_B))
    = strip_document (generate_student_document ([] ++ scenario_B)) ∧
  (category_of yearless_student ∉ ["Hostel"; "Dayscholar"] ∨
     (∃ s, s ∈ [] ++ scenario_B ∧ category_of s = category_of yearless_student) →
   generate_student_document ([] ++ yearless_student :: scenario_B)
     = generate_student_document ([] ++ scenario_B)).
Proof.
  apply (generate_student_document_unknown_year [] scenario_B yearless_student "").
  - vm_compute. reflexivity.
  - apply (bool_decide_unpack _). vm_compute. reflexivity.
Defined.

(** ** Properties of every block of a document *)

Lemma Forall_flat_map_2 {A B} (P : B → Prop) (f : A → list B) (l : list A) :
  (∀ x, x ∈ l → Forall P (f x)) → Forall P (flat_map f l).
Proof.
  induction l as [|x l IH]; intros H; simpl; [constructor|].
  apply Forall_app. split; [apply H; left|]. apply IH. intros y Hy.
  apply H. by right.
Qed.

Lemma Forall_document_blocks (P : block → Prop) students :
  (∀ level text, text ≠ "" → level ≤ 3 → P (heading level text)) →
  (∀ i name reg, P (BParagraph (senior_paragraph i name reg))) →
  (∀ l, P (BTable (first_year_table (table_rows l)))) →
  renderable students →
  Forall P (document_blocks students).
Proof.
  intros Hh Hp Ht Hr. unfold document_blocks. constructor; [by apply Hh; [|lia]|].
  apply Forall_flat_map_2. intros c Hc. unfold category_section.
  pose proof (renderable_category students c Hc Hr) as Hok.
  destruct (filter (in_category c) students) as [|s0 l'] eqn:Hl; [constructor|].
  set (l := s0 :: l') in *. apply Forall_app. split.
  { unfold category_heading. destruct (decide (c = "Uncategorized"));
      constructor; [|constructor]. apply Hh; [by apply category_ne|lia]. }
  apply Forall_flat_map_2. intros y Hy. unfold year_section.
  pose proof (record_ok_year l y Hy Hok) as Hyok.
  destruct (filter (in_year y) l) as [|s1 g'] eqn:Hg; [constructor|].
  set (g := s1 :: g') in *.
  constructor; [apply Hh; [apply year_heading_ne|lia]|].
  destruct (decide (y = "First")) as [|Hny]; [by constructor|].
  apply Forall_flat_map_2. intros d Hd. unfold department_section.
  constructor.
  - apply Hh; [|lia]. intros ->.
    apply elem_of_departments in Hd as (s & Hs & Hsd).
    rewrite Forall_forall in Hyok.
    exact (year_ok_department_ne y s Hny (Hyok s Hs) Hsd).
  - unfold senior_paragraphs. apply Forall_forall. intros b Hb.
    apply list_elem_of_lookup in Hb as [i Hi].
    rewrite list_lookup_imap in Hi.
    destruct (filter _ g !! i); simplify_eq/=. apply Hp.
Qed.

Lemma elem_of_concat {A} (x : A) (ls : list (list A)) :
  x ∈ concat ls ↔ ∃ l, l ∈ ls ∧ x ∈ l.
Proof.
  rewrite list_elem_of_In, in_concat. setoid_rewrite list_elem_of_In. done.
Qed.

Lemma table_cells (rows : list student) c :
  c ∈ concat (t_rows (first_year_table (table_rows rows))) →
  ∃ bold text, c = text_cell bold text.
Proof.
  change (t_rows (first_year_table (table_rows rows)))
    with (header_row :: table_rows rows).
  rewrite elem_of_concat. intros (row & Hrow & Hc).
  apply elem_of_cons in Hrow as [->|Hrow].
  - unfold header_row in Hc. apply list_elem_of_fmap in Hc as (t & -> & _). eauto.
  - unfold table_rows in Hrow.
    apply list_elem_of_lookup in Hrow as [i Hi]. rewrite list_lookup_imap in Hi.
    destruct (sort_by_department rows !! i) as [s|]; [|done].
    injection Hi as <-. unfold table_row in Hc.
    apply list_elem_of_fmap in Hc as (t & -> & _). eauto.
Qed.

Lemma black_runs_table l : black_runs (BTable (first_year_table (table_rows l))).
Proof.
  split; [|by intros [? ?]]. unfold block_runs.
  apply Forall_flat_map_2. intros c Hc.
  apply table_cells in Hc as (bold & text & ->). by repeat constructor.
Qed.

(** C8.  In every document the program returns, every run of every block
    (the run of each heading, the runs of the cells of each table row, header
    and data, and the three runs of each list paragraph) carries the explicit
    colour black, and every heading (title, category, year, department) has
    exactly one run. *)
Theorem generate_student_document_black (students : list student) (doc : document) :
  generate_student_document students = inr doc →
  Forall
    (λ b, Forall (λ r, run_rgb r = Some black) (block_runs b) ∧
          (is_Some (heading_level b) → ∃ r, block_runs b = [r]))
    (body doc).
Proof.
  intros H. apply generate_student_document_inr in H as [Hr ->]. simpl.
  apply (Forall_document_blocks black_runs); [| |apply black_runs_table|done].
  - intros level text _ _. split; [by repeat constructor|]. intros _. by eexists.
  - intros i name reg. split; [by repeat constructor|]. by intros [? ?].
Qed.

Lemma generate_student_document_black_witness :
  ∃ doc, generate_student_document scenario_B = inr doc ∧
  Forall
    (λ b, Forall (λ r, run_rgb r = Some black) (block_runs b) ∧
          (is_Some (heading_level b) → ∃ r, block_runs b = [r]))
    (body doc).
Proof.
  eexists. split; [vm_compute; reflexivity|].
  apply (generate_student_document_black scenario_B). vm_compute. reflexivity.
Defined.

(** ** Numbering *)

Lemma numbered_fresh st bs : fresh bs → numbered st bs ↔ numbered None bs.
Proof.
  destruct bs as [|[p|t] bs]; [done| |done]. simpl.
  destruct (p_style p) as [| |n|]; try done.
Qed.

Lemma fresh_app a b : fresh a → fresh b → fresh (a ++ b).
Proof. by destruct a. Qed.

Lemma section_ok_nil : section_ok [].
Proof. by split. Qed.

Lemma section_ok_app a b : section_ok a → section_ok b → section_ok (a ++ b).
Proof.
  intros [Fa Na] [Fb Nb]. split; [by apply fresh_app|].
  intros rest Fr Nr. rewrite <- app_assoc. apply Na; [|by apply Nb].
  by apply fresh_app.
Qed.

Lemma section_ok_flat_map {A} (f : A → list block) (l : list A) :
  (∀ x, x ∈ l → section_ok (f x)) → section_ok (flat_map f l).
Proof.
  induction l as [|x l IH]; intros H; simpl; [apply section_ok_nil|].
  apply section_ok_app; [apply H; left|]. apply IH. intros y Hy.
  apply H. by right.
Qed.

Lemma section_ok_category_heading c : section_ok [heading 1 c].
Proof. by split. Qed.

Lemma section_ok_year_heading text : section_ok [heading 2 text].
Proof. by split. Qed.

Lemma section_ok_table t : table_numbered t → section_ok [BTable t].
Proof. intros H. split; [done|]. by intros rest _ Hr. Qed.

Lemma numbered_senior_paragraphs k (l : list student) rest :
  fresh rest → numbered None rest →
  numbered (Some (S k))
    (imap (λ i s, BParagraph
             (senior_paragraph (S (k + i)) (name_of s) (registration_of s))) l
     ++ rest).
Proof.
  intros Fr Nr. revert k. induction l as [|s l IH]; intros k.
  - by apply numbered_fresh.
  - rewrite imap_cons. cbn [app numbered senior_paragraph p_style].
    split.
    + exists (name_of s +:+ tab). unfold first_text. simpl.
      by rewrite Nat.add_0_r.
    + erewrite imap_ext; [apply (IH (S k))|].
      intros i x _. simpl. by rewrite Nat.add_succ_r.
Qed.

Lemma section_ok_department g d : section_ok (department_section g d).
Proof.
  split; [done|]. intros rest Fr Nr. unfold department_section.
  cbn [app numbered heading p_style heading_style].
  by apply (numbered_senior_paragraphs 0).
Qed.

Lemma imap_const_seq {A B} (f : nat → B) (l : list A) k :
  imap (λ i _, f (k + i)) l = f <$> seq k (length l).
Proof.
  revert k. induction l as [|x l IH]; intros k; [done|].
  rewrite imap_cons. cbn [length seq]. rewrite fmap_cons, Nat.add_0_r. f_equal.
  rewrite <- (IH (S k)). apply imap_ext. intros i y _. simpl.
  by rewrite Nat.add_succ_r.
Qed.

Lemma table_rows_numbered l : table_numbered (first_year_table (table_rows l)).
Proof.
  unfold table_numbered, row_numbers. cbn [first_year_table t_rows tail].
  unfold table_rows. rewrite fmap_imap, length_imap.
  by rewrite <- (imap_const_seq pretty _ 1).
Qed.

Lemma section_ok_year l y : section_ok (year_section l y).
Proof.
  unfold year_section.
  destruct (filter (in_year y) l) as [|s g]; [apply section_ok_nil|].
  apply (section_ok_app [_]); [apply section_ok_year_heading|].
  destruct (decide (y = "First")).
  - apply section_ok_table, table_rows_numbered.
  - apply section_ok_flat_map. intros d _. apply section_ok_department.
Qed.

Lemma section_ok_category students c : section_ok (category_section students c).
Proof.
  unfold category_section.
  destruct (filter (in_category c) students) as [|s l]; [apply section_ok_nil|].
  apply section_ok_app.
  - unfold category_heading. destruct (decide (c = "Uncategorized"));
      [apply section_ok_nil|apply section_ok_category_heading].
  - apply section_ok_flat_map. intros y _. apply section_ok_year.
Qed.

(** C5.  In every document the program returns, the list that follows each
    department heading is numbered 1, 2, 3, ... from its first paragraph (no
    list paragraph stands outside such a list, and the count never carries
    over a heading or a table), and the data rows of every table are numbered
    1, 2, 3, ... from its first data row. *)
Theorem generate_student_document_numbered (students : list student) (doc : document) :
  generate_student_document students = inr doc →
  numbered None (body doc).
Proof.
  intros H. apply generate_student_document_inr in H as [_ ->].
  change (numbered None (flat_map (category_section students) category_order)).
  rewrite <- (app_nil_r (flat_map _ _)).
  by apply (section_ok_flat_map (category_section students) category_order);
    [intros c _; apply section_ok_category| |].
Qed.

Lemma generate_student_document_numbered_witness :
  ∃ doc, generate_student_document scenario_B = inr doc ∧ numbered None (body doc).
Proof.
  eexists. split; [vm_compute; reflexivity|].
  apply (generate_student_document_numbered scenario_B). vm_compute. reflexivity.
Defined.

Example numbered_rejects_continued_count :
  ¬ numbered None
      [heading 3 "CSE"; BParagraph (senior_paragraph 1 "A" "R1");
       heading 3 "ECE"; BParagraph (senior_paragraph 2 "B" "R2")].
Proof. intros (_ & [rest Hrest] & _). vm_compute in Hrest. discriminate. Qed.

(** ** The shape of the document *)

Lemma year_section_eq l y :
  year_section l y =
  if decide (filter (in_year y) l = []) then []
  else heading 2 (y +:+ " Year") :: year_content (filter (in_year y) l) y.
Proof. unfold year_section, year_content. by destruct (filter (in_year y) l). Qed.

Lemma category_section_eq students c :
  category_section students c =
  if decide (filter (in_category c) students = []) then []
  else category_heading c ++
       flat_map (year_section (filter (in_category c) students)) year_order.
Proof. unfold category_section. by destruct (filter (in_category c) students). Qed.

Lemma senior_paragraphs_level l b :
  b ∈ senior_paragraphs l → heading_level b = None.
Proof.
  unfold senior_paragraphs. intros Hb. apply list_elem_of_lookup in Hb as [i Hi].
  rewrite list_lookup_imap in Hi. destruct (l !! i); by simplify_eq/=.
Qed.

Lemma elem_of_flat_map {A B} (f : A → list B) (l : list A) y :
  y ∈ flat_map f l ↔ ∃ x, x ∈ l ∧ y ∈ f x.
Proof.
  rewrite list_elem_of_In, in_flat_map. setoid_rewrite list_elem_of_In. done.
Qed.

Lemma year_content_level g y b :
  b ∈ year_content g y → heading_level b = None ∨ heading_level b = Some 3.
Proof.
  unfold year_content. destruct (decide (y = "First")).
  - intros ->%list_elem_of_singleton. by left.
  - intros (d & _ & Hb)%elem_of_flat_map. unfold department_section in Hb.
    apply elem_of_cons in Hb as [->|Hb]; [by right|].
    left. by eapply senior_paragraphs_level.
Qed.

(** C3.  The document is the title followed by the sections of the
    categories Hostel, Dayscholar, Uncategorized in this order, a category
    without records giving nothing; the section of a category is its heading
    (none for Uncategorized) followed by the sections of the years Fourth,
    Third, Second, First in this order, a year without records giving
    nothing; the section of a year begins with the level-2 heading
    "<Year> Year", and holds no other heading of level 0, 1 or 2. *)
Theorem generate_student_document_order (students : list student) (doc : document) :
  generate_student_document students = inr doc →
  ∃ content : string → string → list block,
    (∀ c y b, b ∈ content c y →
       heading_level b = None ∨ heading_level b = Some 3) ∧
    body doc =
      heading 0 "VOLUNTEERS LIST" ::
      flat_map (λ c,
        let bucket := filter (in_category c) students in
        if decide (bucket = []) then []
        else
          (if decide (c = "Uncategorized") then [] else [heading 1 c]) ++
          flat_map (λ y,
            if decide (filter (in_year y) bucket = []) then []
            else heading 2 (y +:+ " Year") :: content c y)
            ["Fourth"; "Third"; "Second"; "First"])
        ["Hostel"; "Dayscholar"; "Uncategorized"].
Proof.
  intros H. apply generate_student_document_inr in H as [_ ->].
  exists (λ c y,
    year_content (filter (in_year y) (filter (in_category c) students)) y).
  split; [intros c y b; apply year_content_level|].
  unfold finished, document_blocks. cbn [body]. f_equal.
  apply flat_map_ext. intros c. rewrite category_section_eq. cbv zeta.
  destruct (decide (filter (in_category c) students = [])); [done|].
  f_equal. apply flat_map_ext. intros y. apply year_section_eq.
Qed.

Lemma generate_student_document_order_witness :
  ∃ doc, generate_student_document scenario_B = inr doc ∧
  ∃ content : string → string → list block,
    (∀ c y b, b ∈ content c y →
       heading_level b = None ∨ heading_level b = Some 3) ∧
    body doc =
      heading 0 "VOLUNTEERS LIST" ::
      flat_map (λ c,
        let bucket := filter (in_category c) scenario_B in
        if decide (bucket = []) then []
        else
          (if decide (c = "Uncategorized") then [] else [heading 1 c]) ++
          flat_map (λ y,
            if decide (filter (in_year y) bucket = []) then []
            else heading 2 (y +:+ " Year") :: content c y)
            ["Fourth"; "Third"; "Second"; "First"])
        ["Hostel"; "Dayscholar"; "Uncategorized"].
Proof.
  eexists. split; [vm_compute; reflexivity|].
  apply (generate_student_document_order scenario_B). vm_compute. reflexivity.
Defined.

Lemma starts_section_app a b :
  starts_section a → starts_section b → starts_section (a ++ b).
Proof. by destruct a. Qed.

Lemma starts_section_flat_map {A} (f : A → list block) (l : list A) :
  (∀ x, starts_section (f x)) → starts_section (flat_map f l).
Proof.
  intros H. induction l as [|x l IH]; simpl; [done|].
  by apply starts_section_app.
Qed.

Lemma starts_section_year l y : starts_section (year_section l y).
Proof.
  unfold year_section. destruct (filter (in_year y) l); [done|].
  exists 2. split; [done|lia].
Qed.

Lemma starts_section_category students c :
  starts_section (category_section students c).
Proof.
  unfold category_section. destruct (filter (in_category c) students); [done|].
  apply starts_section_app.
  - unfold category_heading. destruct (decide (c = "Uncategorized")); [done|].
    exists 1. split; [|lia]. done.
  - apply starts_section_flat_map. intros y. apply starts_section_year.
Qed.

Lemma flat_map_split {A B} (f : A → list B) (l : list A) x :
  x ∈ l → ∃ l1 l2, l = l1 ++ x :: l2 ∧
    flat_map f l = flat_map f l1 ++ f x ++ flat_map f l2.
Proof.
  intros (l1 & l2 & ->)%list_elem_of_split. exists l1, l2. split; [done|].
  by rewrite flat_map_app.
Qed.

Lemma departments_strict l :
  StronglySorted (λ a b, str_lt a b = true) (departments l).
Proof. apply sorted_strict, NoDup_remove_dups. Qed.

Lemma departments_NoDup l : NoDup (departments l).
Proof. unfold departments. rewrite sorted_perm. apply NoDup_remove_dups. Qed.

(** C4.  In every document the program returns, the section of a Fourth,
    Third or Second year of a category that has such students is the year
    heading followed, for each department of these students, by a level-3
    heading with the department and by the numbered list of the students of
    that department, in their order in the input; the departments are all
    those of these students, in strictly ascending order, each once; what
    comes after is nothing or the next year or category heading. *)
Theorem generate_student_document_departments
    (students : list student) (doc : document) (c y : string) :
  generate_student_document students = inr doc →
  c ∈ ["Hostel"; "Dayscholar"; "Uncategorized"] →
  y ∈ ["Fourth"; "Third"; "Second"] →
  filter (in_year y) (filter (in_category c) students) ≠ [] →
  ∃ (depts : list string) (before after : list block),
    StronglySorted (λ a b, str_lt a b = true) depts ∧
    NoDup depts ∧
    (∀ d, d ∈ depts ↔
       ∃ s, s ∈ filter (in_year y) (filter (in_category c) students) ∧
            in_department d s) ∧
    body doc =
      before ++
      heading 2 (y +:+ " Year") ::
      flat_map (λ d,
        heading 3 d ::
        senior_paragraphs
          (filter (in_department d)
             (filter (in_year y) (filter (in_category c) students))))
        depts ++
      after ∧
    starts_section after.
Proof.
  intros H Hc Hy Hg. apply generate_student_document_inr in H as [_ ->].
  set (l := filter (in_category c) students) in *.
  set (g := filter (in_year y) l) in *.
  assert (y ∈ year_order) as Hy'.
  { unfold year_order.
    repeat (apply elem_of_cons in Hy as [->|Hy]; [by repeat constructor|]).
    by apply elem_of_nil in Hy. }
  assert (y ≠ "First") as Hnf.
  { intros ->.
    repeat (apply elem_of_cons in Hy as [?|Hy]; [done|]).
    by apply elem_of_nil in Hy. }
  destruct (flat_map_split (category_section students) category_order c Hc)
    as (c1 & c2 & _ & Hcs).
  destruct (flat_map_split (year_section l) year_order y Hy')
    as (y1 & y2 & _ & Hys).
  exists (departments g),
    (heading 0 "VOLUNTEERS LIST" :: flat_map (category_section students) c1 ++
     category_heading c ++ flat_map (year_section l) y1),
    (flat_map (year_section l) y2 ++ flat_map (category_section students) c2).
  split_and!.
  - apply departments_strict.
  - apply departments_NoDup.
  - intros d. apply elem_of_departments.
  - unfold finished, document_blocks. cbn [body]. rewrite Hcs.
    rewrite category_section_eq. fold l.
    rewrite decide_False by (by intros Hl; apply Hg; unfold g; rewrite Hl).
    rewrite Hys, year_section_eq. fold g. rewrite decide_False by done.
    unfold year_content. rewrite decide_False by done.
    f_equal. repeat (rewrite <- app_assoc || rewrite <- app_comm_cons). done.
  - apply starts_section_app; apply starts_section_flat_map; intros ?;
      [apply starts_section_year|apply starts_section_category].
Qed.

Lemma generate_student_document_departments_witness :
  ∃ doc, generate_student_document scenario_B = inr doc ∧
  ∃ (depts : list string) (before after : list block),
    StronglySorted (λ a b, str_lt a b = true) depts ∧
    NoDup depts ∧
    (∀ d, d ∈ depts ↔
       ∃ s, s ∈ filter (in_year "Second") (filter (in_category "Hostel") scenario_B) ∧
            in_department d s) ∧
    body doc =
      before ++
      heading 2 ("Second" +:+ " Year") ::
      flat_map (λ d,
        heading 3 d ::
        senior_paragraphs
          (filter (in_department d)
             (filter (in_year "Second") (filter (in_category "Hostel") scenario_B))))
        depts ++
      after ∧
    starts_section after.
Proof.
  eexists. split; [vm_compute; reflexivity|].
  apply (generate_student_document_departments scenario_B _ "Hostel" "Second").
  - vm_compute. reflexivity.
  - apply (bool_decide_unpack _). vm_compute. reflexivity.
  - apply (bool_decide_unpack _). vm_compute. reflexivity.
  - vm_compute. discriminate.
Defined.

(** ** The registration numbers a document shows *)

Lemma rendered_app a b :
  rendered_registration_numbers (a ++ b) =
  rendered_registration_numbers a ++ rendered_registration_numbers b.
Proof. apply flat_map_app. Qed.

Lemma rendered_flat_map {A} (f : A → list block) (l : list A) :
  rendered_registration_numbers (flat_map f l) =
  flat_map (λ x, rendered_registration_numbers (f x)) l.
Proof.
  induction l as [|x l IH]; [done|]. simpl. by rewrite rendered_app, IH.
Qed.

Lemma rendered_heading level text :
  rendered_registration_numbers [heading level text] = [].
Proof.
  unfold rendered_registration_numbers, heading, heading_style. simpl.
  by destruct (decide (level = 0)).
Qed.

Lemma rendered_cons_heading level text bs :
  rendered_registration_numbers (heading level text :: bs) =
  rendered_registration_numbers bs.
Proof.
  change (heading level text :: bs) with ([heading level text] ++ bs).
  by rewrite rendered_app, rendered_heading.
Qed.

Lemma rendered_senior_paragraphs l :
  rendered_registration_numbers (senior_paragraphs l) = registration_of <$> l.
Proof.
  unfold senior_paragraphs. generalize S as f. induction l as [|s l IH]; intros f.
  - done.
  - rewrite imap_cons, fmap_cons. rewrite <- (IH (f ∘ S)). done.
Qed.

Lemma rendered_table g :
  rendered_registration_numbers [BTable (first_year_table (table_rows g))] =
  registration_of <$> sort_by_department g.
Proof.
  unfold rendered_registration_numbers. cbn [flat_map first_year_table t_rows tail].
  rewrite app_nil_r. unfold table_rows. rewrite fmap_imap.
  generalize S as f. generalize (sort_by_department g) as l.
  induction l as [|s l IH]; intros f; [done|].
  rewrite imap_cons, fmap_cons. by rewrite <- (IH (f ∘ S)).
Qed.

Lemma flat_map_perm_ext {A B} (f g : A → list B) (l : list A) :
  (∀ x, x ∈ l → f x ≡ₚ g x) → flat_map f l ≡ₚ flat_map g l.
Proof.
  induction l as [|x l IH]; intros H; [done|]. simpl.
  rewrite (H x) by left. rewrite IH; [done|]. intros y Hy. apply H. by right.
Qed.

Lemma fmap_flat_map {A B C} (h : B → C) (f : A → list B) (l : list A) :
  h <$> flat_map f l = flat_map (λ x, h <$> f x) l.
Proof.
  induction l as [|x l IH]; [done|]. simpl. by rewrite fmap_app, IH.
Qed.

Lemma flat_map_nil {A B} (l : list A) : flat_map (λ _, @nil B) l = [].
Proof. by induction l. Qed.

Lemma groups_cons_notin {A} (kf : A → string) (ks : list string) x (l : list A) :
  kf x ∉ ks →
  flat_map (λ k, filter (λ x, kf x = k) (x :: l)) ks =
  flat_map (λ k, filter (λ x, kf x = k) l) ks.
Proof.
  induction ks as [|k ks IH]; intros Hx; [done|]. cbn [flat_map].
  rewrite filter_cons_False by (intros Hk; apply Hx; rewrite Hk; left).
  rewrite IH; [done|]. intros ?. apply Hx. by right.
Qed.

Lemma groups_cons_in {A} (kf : A → string) (ks : list string) x (l : list A) :
  NoDup ks → kf x ∈ ks →
  flat_map (λ k, filter (λ x, kf x = k) (x :: l)) ks ≡ₚ
  x :: flat_map (λ k, filter (λ x, kf x = k) l) ks.
Proof.
  induction 1 as [|k ks Hk Hnd IH]; intros Hx; [by apply elem_of_nil in Hx|].
  cbn [flat_map]. destruct (decide (kf x = k)) as [<-|Hne].
  - rewrite filter_cons_True by done. by rewrite groups_cons_notin.
  - rewrite filter_cons_False by done. rewrite IH.
    + by rewrite Permutation_middle.
    + by apply elem_of_cons in Hx as [?|?].
Qed.

(** The groups of the keys of [ks] partition the elements whose key is in
    [ks]. *)
Lemma groups_partition {A} (kf : A → string) (ks : list string) (l : list A) :
  NoDup ks →
  flat_map (λ k, filter (λ x, kf x = k) l) ks ≡ₚ filter (λ x, kf x ∈ ks) l.
Proof.
  intros Hnd. induction l as [|x l IH].
  - clear Hnd. by induction ks.
  - rewrite filter_cons. destruct (decide (kf x ∈ ks)) as [Hin|Hnin].
    + by rewrite groups_cons_in, IH.
    + by rewrite groups_cons_notin.
Qed.

Lemma filter_all {A} (P : A → Prop) `{∀ x, Decision (P x)} (l : list A) :
  Forall P l → filter P l = l.
Proof.
  induction 1 as [|x l Hx _ IH]; [done|]. by rewrite filter_cons_True, IH.
Qed.

Lemma rendered_departments g :
  Forall (has_key "department") g →
  rendered_registration_numbers (flat_map (department_section g) (departments g))
    ≡ₚ registration_of <$> g.
Proof.
  intros Hg. rewrite rendered_flat_map.
  erewrite flat_map_ext.
  2: { intros d. unfold department_section.
       rewrite rendered_cons_heading, rendered_senior_paragraphs.
       unfold in_department. rewrite <- (filter_key_Forall "department") by done.
       reflexivity. }
  rewrite <- fmap_flat_map.
  rewrite (groups_partition (λ s, default "" (s !! "department")))
    by apply departments_NoDup.
  rewrite filter_all; [done|]. apply Forall_forall. intros s Hs.
  rewrite Forall_forall in Hg. destruct (Hg s Hs) as [d Hd].
  apply elem_of_departments. exists s. rewrite Hd. done.
Qed.

Lemma rendered_year l y :
  Forall (year_ok y) (filter (in_year y) l) →
  rendered_registration_numbers (year_section l y)
    ≡ₚ registration_of <$> filter (in_year y) l.
Proof.
  intros H. rewrite year_section_eq.
  destruct (decide (filter (in_year y) l = [])) as [->|Hne]; [done|].
  rewrite rendered_cons_heading. unfold year_content.
  destruct (decide (y = "First")).
  - by rewrite rendered_table, sort_by_department_perm.
  - apply rendered_departments. eapply Forall_impl; [exact H|].
    intros s. apply year_ok_department.
Qed.

Lemma year_order_NoDup : NoDup year_order.
Proof. apply (bool_decide_unpack _). by vm_compute. Qed.

Lemma category_order_NoDup : NoDup category_order.
Proof. apply (bool_decide_unpack _). by vm_compute. Qed.

Lemma rendered_category students c :
  Forall record_ok (filter (in_category c) students) →
  rendered_registration_numbers (category_section students c)
    ≡ₚ registration_of <$>
         filter (λ s, category_of s = c ∧ year_of s ∈ year_order) students.
Proof.
  intros H. rewrite category_section_eq.
  set (l := filter (in_category c) students) in *.
  assert (filter (λ s, category_of s = c ∧ year_of s ∈ year_order) students
          = filter (λ s, year_of s ∈ year_order) l) as ->.
  { unfold l, in_category. rewrite list_filter_filter.
    apply list_filter_iff. tauto. }
  destruct (decide (l = [])) as [->|Hne]; [done|].
  rewrite rendered_app. unfold category_heading.
  assert (rendered_registration_numbers
            (if decide (c = "Uncategorized") then [] else [heading 1 c]) = [])
    as -> by (by destruct (decide _)).
  rewrite app_nil_l, rendered_flat_map.
  rewrite (flat_map_perm_ext _ (λ y, registration_of <$> filter (λ s, year_of s = y) l)).
  - rewrite <- fmap_flat_map.
    by rewrite (groups_partition year_of) by apply year_order_NoDup.
  - intros y Hy. rewrite rendered_year by (by apply record_ok_year).
    unfold in_year, year_of. rewrite (filter_key_Forall "year"); [done|].
    eapply Forall_impl; [exact H|]. by intros s [? _].
Qed.

Lemma rendered_document students :
  renderable students →
  rendered_registration_numbers (document_blocks students)
    ≡ₚ registration_of <$>
         filter (λ s, category_of s ∈ category_order ∧ year_of s ∈ year_order)
                students.
Proof.
  intros H. unfold document_blocks.
  rewrite rendered_cons_heading, rendered_flat_map.
  rewrite (flat_map_perm_ext _ (λ c, registration_of <$>
    filter (λ s, category_of s = c)
      (filter (λ s, year_of s ∈ year_order) students))).
  - rewrite <- fmap_flat_map.
    rewrite (groups_partition category_of) by apply category_order_NoDup.
    by rewrite list_filter_filter.
  - intros c Hc.
    rewrite rendered_category by (by apply renderable_category).
    by rewrite list_filter_filter.
Qed.

(** C1 (as amended).  In every document the program returns, the
    registration numbers shown in the data rows of the tables and in the list
    paragraphs are, counted with multiplicity, those of the input records
    whose category is an iterated one (absent, Hostel, Dayscholar,
    Uncategorized) and whose year is one of Fourth, Third, Second, First:
    each such record is shown exactly once, and no other record is shown.
    When every category is absent or Hostel, as the schema requires, these
    are the records whose year is one of the four. *)
Theorem generate_student_document_complete (students : list student) (doc : document) :
  generate_student_document students = inr doc →
  rendered_registration_numbers (body doc)
    ≡ₚ registration_of <$>
         filter (λ s, category_of s ∈ category_order ∧ year_of s ∈ year_order)
                students ∧
  ((∀ s, s ∈ students →
      s !! "category" = None ∨ s !! "category" = Some "Hostel") →
   rendered_registration_numbers (body doc)
     ≡ₚ registration_of <$> filter (λ s, year_of s ∈ year_order) students).
Proof.
  intros H. apply generate_student_document_inr in H as [Hr ->].
  change (body (finished (document_blocks students)))
    with (document_blocks students).
  split; [by apply rendered_document|].
  intros Hs. rewrite rendered_document by done.
  erewrite filter_ext_Forall; [done|].
  apply Forall_forall. intros s Hin. split; [tauto|]. intros Hy. split; [|done].
  unfold category_of. destruct (Hs s Hin) as [-> | ->]; simpl.
  - by repeat constructor.
  - by repeat constructor.
Qed.

Lemma generate_student_document_complete_witness :
  ∃ doc, generate_student_document scenario_B = inr doc ∧
  rendered_registration_numbers (body doc)
    ≡ₚ registration_of <$>
         filter (λ s, category_of s ∈ category_order ∧ year_of s ∈ year_order)
                scenario_B ∧
  ((∀ s, s ∈ scenario_B →
      s !! "category" = None ∨ s !! "category" = Some "Hostel") →
   rendered_registration_numbers (body doc)
     ≡ₚ registration_of <$> filter (λ s, year_of s ∈ year_order) scenario_B).
Proof.
  eexists. split; [vm_compute; reflexivity|].
  apply (generate_student_document_complete scenario_B). vm_compute. reflexivity.
Defined.

(** C1 as stated fails: a record that satisfies the schema, with the empty
    string as its year, is in no table and in no list of the document. *)
Lemma generate_student_document_drops_empty_year :
  (has_key "full_name" yearless_student ∧
   has_key "registration_number" yearless_student ∧
   has_key "department" yearless_student ∧
   has_key "year" yearless_student ∧
   yearless_student !! "category" = None) ∧
  ∃ doc, generate_student_document [yearless_student] = inr doc ∧
         registration_of yearless_student
           ∉ rendered_registration_numbers (body doc).
Proof.
  split.
  - split_and!; first [by vm_compute|eexists; by vm_compute].
  - eexists. split; [vm_compute; reflexivity|].
    vm_compute. intros H. by apply elem_of_nil in H.
Qed.

Lemma year_section_levels l y b :
  b ∈ year_section l y → heading_level b ≠ Some 1 ∧ heading_level b ≠ Some 0.
Proof.
  rewrite year_section_eq. destruct (decide _); [by intros ?%elem_of_nil|].
  intros [->|Hb]%elem_of_cons; [done|].
  apply year_content_level in Hb as [-> | ->]; done.
Qed.

Lemma years_levels (l : list student) :
  Forall (λ b, heading_level b ≠ Some 1 ∧ heading_level b ≠ Some 0)
         (flat_map (year_section l) year_order).
Proof.
  apply Forall_flat_map_2. intros y _. apply Forall_forall. intros b.
  apply year_section_levels.
Qed.

Lemma layout_drop_other_category l1 r l2 :
  category_of r ∉ category_order → layout (l1 ++ r :: l2) = layout (l1 ++ l2).
Proof.
  intros H. unfold layout. f_equal. apply out_concat_ext. intros c Hc.
  apply category_out_drop_other. by intros ->.
Qed.

(** C2 (as amended).  A record whose [category] key is absent belongs to the
    Uncategorized bucket.  A record whose category value is present and is
    none of Hostel, Dayscholar, Uncategorized belongs to no bucket the program
    iterates: it changes neither the document nor the error.  The body of a
    returned document is the title followed by the sections of Hostel,
    Dayscholar and Uncategorized; the section of a category shows the records
    of its bucket whose year is one of the four; the section of a non-empty
    Hostel or Dayscholar bucket begins with the level-1 heading naming the
    category, the only heading of level 0 or 1 in it, and that of an empty
    bucket is empty; the Uncategorized section has no heading of level 0 or
    1. *)
Theorem generate_student_document_categories :
  (∀ s : student, s !! "category" = None → category_of s = "Uncategorized") ∧
  (∀ (l1 l2 : list student) (r : student),
     category_of r ∉ ["Hostel"; "Dayscholar"; "Uncategorized"] →
     generate_student_document (l1 ++ r :: l2)
       = generate_student_document (l1 ++ l2)) ∧
  (∀ (students : list student) (doc : document),
     generate_student_document students = inr doc →
     ∃ sec : string → list block,
       body doc =
         heading 0 "VOLUNTEERS LIST" ::
         sec "Hostel" ++ sec "Dayscholar" ++ sec "Uncategorized" ∧
       (∀ c, c ∈ ["Hostel"; "Dayscholar"; "Uncategorized"] →
          rendered_registration_numbers (sec c)
            ≡ₚ registration_of <$>
                 filter (λ s, category_of s = c ∧ year_of s ∈ year_order)
                        students) ∧
       (∀ c, c ∈ ["Hostel"; "Dayscholar"] →
          if decide (filter (in_category c) students = []) then sec c = []
          else ∃ rest, sec c = heading 1 c :: rest ∧
                 Forall (λ b, heading_level b ≠ Some 1 ∧ heading_level b ≠ Some 0)
                        rest) ∧
       Forall (λ b, heading_level b ≠ Some 1 ∧ heading_level b ≠ Some 0)
              (sec "Uncategorized")).
Proof.
  split_and!.
  - intros s Hs. unfold category_of. by rewrite Hs.
  - intros l1 l2 r Hr. rewrite !generate_student_document_layout.
    by rewrite layout_drop_other_category.
  - intros students doc H. apply generate_student_document_inr in H as [Hr ->].
    exists (category_section students). split_and!.
    + unfold finished, document_blocks, category_order. cbn [body flat_map].
      by rewrite app_nil_r.
    + intros c Hc. by apply rendered_category, renderable_category.
    + intros c Hc. rewrite category_section_eq.
      destruct (decide (filter (in_category c) students = [])); [done|].
      unfold category_heading. rewrite decide_False.
      * eexists. split; [reflexivity|]. apply years_levels.
      * intros ->. repeat (apply elem_of_cons in Hc as [?|Hc]; [done|]).
        by apply elem_of_nil in Hc.
    + rewrite category_section_eq. destruct (decide _); [constructor|].
      unfold category_heading. rewrite decide_True by done. apply years_levels.
Qed.

Lemma generate_student_document_categories_witness :
  ∃ doc, generate_student_document scenario_A = inr doc ∧
    ∃ sec : string → list block,
       body doc =
         heading 0 "VOLUNTEERS LIST" ::
         sec "Hostel" ++ sec "Dayscholar" ++ sec "Uncategorized" ∧
       (∀ c, c ∈ ["Hostel"; "Dayscholar"; "Uncategorized"] →
          rendered_registration_numbers (sec c)
            ≡ₚ registration_of <$>
                 filter (λ s, category_of s = c ∧ year_of s ∈ year_order)
                        scenario_A) ∧
       (∀ c, c ∈ ["Hostel"; "Dayscholar"] →
          if decide (filter (in_category c) scenario_A = []) then sec c = []
          else ∃ rest, sec c = heading 1 c :: rest ∧
                 Forall (λ b, heading_level b ≠ Some 1 ∧ heading_level b ≠ Some 0)
                        rest) ∧
       Forall (λ b, heading_level b ≠ Some 1 ∧ heading_level b ≠ Some 0)
              (sec "Uncategorized").
Proof.
  eexists. split; [vm_compute; reflexivity|].
  apply (proj2 (proj2 generate_student_document_categories) scenario_A).
  vm_compute. reflexivity.
Defined.

(** C2 as stated fails: a first-year record with all its keys, whose
    category is a value other than Hostel and Dayscholar, is not placed in
    the Uncategorized bucket: the document holds the title and nothing
    else. *)
Lemma generate_student_document_drops_other_category :
  postgraduate_student !! "category" = Some "PG" ∧
  ("PG" ∉ ["Hostel"; "Dayscholar"]) ∧
  ∃ doc, generate_student_document [postgraduate_student] = inr doc ∧
         body doc = [heading 0 "VOLUNTEERS LIST"] ∧
         registration_of postgraduate_student
           ∉ rendered_registration_numbers (body doc).
Proof.
  split_and!.
  - vm_compute. reflexivity.
  - apply (bool_decide_unpack _). vm_compute. reflexivity.
  - eexists. split_and!; [vm_compute; reflexivity|vm_compute; reflexivity|].
    vm_compute. intros H. by apply elem_of_nil in H.
Qed.

Lemma generate_student_document_raises_witness :
  (∃ doc, generate_student_document scenario_B = inr doc) ∧
  (∃ e, generate_student_document [unregistered_student] = inl e).
Proof.
  split.
  - apply (proj1 (generate_student_document_raises scenario_B)).
    apply (proj1 (Forall_forall
      (λ s, category_of s ∈ category_order → _) scenario_B)).
    apply (bool_decide_unpack _). vm_compute. reflexivity.
  - apply (proj2 (generate_student_document_raises [unregistered_student])).
    exists unregistered_student. split; [by left|]. split.
    + apply (bool_decide_unpack _). vm_compute. reflexivity.
    + right. apply (bool_decide_unpack _). vm_compute. reflexivity.
Defined.

(** * Further properties *)

(** ** [extract_json_from_response] *)

Lemma has_char_app c (a b : string) :
  has_char c (a +:+ b) = has_char c a || has_char c b.
Proof.
  induction a as [|x a IH]; [done|]. rewrite str_app_cons. cbn [has_char].
  by destruct (decide (x = c)).
Qed.

Lemma str_app_eq_app (a b c d : string) :
  a +:+ b = c +:+ d →
  ∃ k, (a = c +:+ k ∧ d = k +:+ b) ∨ (c = a +:+ k ∧ b = k +:+ d).
Proof.
  revert c. induction a as [|x a IH]; intros c H.
  - rewrite str_app_nil_l in H. exists c. right. by rewrite H.
  - destruct c as [|y c].
    + rewrite str_app_nil_l in H. exists (String x a). left. by rewrite <- H.
    + rewrite !str_app_cons in H. injection H as -> H.
      destruct (IH c H) as [k [[-> ->]|[-> ->]]]; exists k; [left|right]; done.
Qed.

Lemma star_close_None s : star_close s = None ↔ has_char "]" s = false.
Proof.
  induction s as [|c s IH]; [done|]. cbn [star_close has_char].
  destruct (star_close s) as [m|].
  - split; [done|]. destruct (decide (c = "]"%char)); [done|].
    intros H. by apply IH in H.
  - destruct (decide (c = "]"%char)); [done|]. split; [|done].
    intros _. by apply IH.
Qed.

Lemma star_close_Some s m :
  star_close s = Some m →
  ∃ mid post, s = mid +:+ "]" +:+ post ∧ m = mid +:+ "]" ∧
              has_char "]" post = false.
Proof.
  revert m. induction s as [|c s IH]; intros m; [done|]. cbn [star_close].
  destruct (star_close s) as [m'|] eqn:Hs.
  - intros [= <-]. destruct (IH m' eq_refl) as (mid & post & -> & -> & Hp).
    by exists (String c mid), post.
  - destruct (decide (c = "]"%char)) as [->|]; [|done]. intros [= <-].
    exists "", s. split_and!; [done|done|]. by apply star_close_None.
Qed.

Lemma star_close_complete mid post :
  has_char "]" post = false →
  star_close (mid +:+ "]" +:+ post) = Some (mid +:+ "]").
Proof.
  intros Hp. induction mid as [|c mid IH].
  - rewrite !str_app_nil_l, str_app_cons, str_app_nil_l. cbn [star_close].
    apply star_close_None in Hp. by rewrite Hp.
  - rewrite !(str_app_cons c mid). cbn [star_close]. by rewrite IH.
Qed.

Lemma re_search_sound s m :
  re_search s = Some m →
  ∃ pre mid post,
    s = pre +:+ "[" +:+ mid +:+ "]" +:+ post ∧ m = "[" +:+ mid +:+ "]" ∧
    has_char "[" pre = false ∧ has_char "]" post = false.
Proof.
  induction s as [|c s IH]; [done|]. cbn [re_search match_here].
  destruct (decide (c = "["%char)) as [->|Hc].
  - destruct (star_close s) as [m0|] eqn:Hs; cbn [fmap option_fmap option_map].
    + intros [= <-].
      destruct (star_close_Some s m0 Hs) as (mid & post & -> & -> & Hp).
      by exists "", mid, post.
    + intros H. destruct (IH H) as (pre & mid & post & -> & _).
      apply star_close_None in Hs.
      rewrite !has_char_app in Hs.
      replace (has_char "]" "]") with true in Hs by done.
      by rewrite !orb_true_r in Hs.
  - intros H. destruct (IH H) as (pre & mid & post & -> & -> & Hpre & Hpost).
    exists (String c pre), mid, post. split_and!; [done|done| |done].
    cbn [has_char]. by rewrite decide_False.
Qed.

Lemma re_search_complete pre mid post :
  has_char "[" pre = false → has_char "]" post = false →
  re_search (pre +:+ "[" +:+ mid +:+ "]" +:+ post) = Some ("[" +:+ mid +:+ "]").
Proof.
  intros Hpre Hpost. induction pre as [|c pre IH].
  - change ("" +:+ "[" +:+ mid +:+ "]" +:+ post)
      with (String "["%char (mid +:+ "]" +:+ post)).
    cbn [re_search match_here]. rewrite decide_True by done.
    by rewrite star_close_complete.
  - cbn [has_char] in Hpre.
    destruct (decide (c = "["%char)) as [|Hc]; [done|].
    rewrite str_app_cons. cbn [re_search match_here].
    rewrite decide_False by done. by apply IH.
Qed.

Lemma re_search_None s pre rest :
  re_search s = None → s = pre +:+ "[" +:+ rest → has_char "]" rest = false.
Proof.
  revert pre. induction s as [|c s IH]; intros pre.
  - by destruct pre.
  - cbn [re_search match_here].
    destruct (decide (c = "["%char)) as [->|Hc].
    + destruct (star_close s) as [m0|] eqn:Hs; [done|].
      cbn [fmap option_fmap option_map]. intros H Heq.
      apply star_close_None in Hs. destruct pre as [|x pre].
      * rewrite str_app_nil_l, str_app_cons, str_app_nil_l in Heq.
        by injection Heq as <-.
      * rewrite str_app_cons in Heq. injection Heq as _ ->.
        rewrite !has_char_app in Hs.
        by apply orb_false_elim in Hs as [_ [_ ?]%orb_false_elim].
    + intros H Heq. destruct pre as [|x pre].
      * rewrite str_app_nil_l, str_app_cons in Heq. by injection Heq as ->.
      * rewrite str_app_cons in Heq. injection Heq as _ ->. by eapply IH.
Qed.

Lemma extract_json_eq text : extract_json_from_response text = re_search text.
Proof. unfold extract_json_from_response. by destruct (re_search text). Qed.

Lemma has_char_last (x m j : string) :
  x +:+ "]" = m +:+ j → j = "" ∨ has_char "]" j = true.
Proof.
  revert m. induction x as [|c x IH]; intros m H.
  - rewrite str_app_nil_l in H. destruct m as [|d m].
    + rewrite str_app_nil_l in H. subst j. by right.
    + rewrite str_app_cons in H. injection H as _ H.
      destruct m; [|done]. rewrite str_app_nil_l in H. by left.
  - rewrite str_app_cons in H. destruct m as [|d m].
    + rewrite str_app_nil_l in H. subst j. right.
      rewrite <- str_app_cons, has_char_app. by rewrite orb_true_r.
    + rewrite str_app_cons in H. injection H as _ H. by eapply IH.
Qed.

(** X1.  [extract_json_from_response] returns [None] exactly when the text
    has no opening bracket followed, somewhere later, by a closing bracket. *)
Theorem extract_json_from_response_none (text : string) :
  extract_json_from_response text = None ↔
  ∀ pre mid post, text ≠ pre +:+ "[" +:+ mid +:+ "]" +:+ post.
Proof.
  rewrite extract_json_eq. split.
  - intros H pre mid post Heq.
    pose proof (re_search_None _ _ _ H Heq) as Hc.
    rewrite !has_char_app in Hc.
    replace (has_char "]" "]") with true in Hc by done.
    by rewrite orb_true_r in Hc.
  - intros H. destruct (re_search text) as [m|] eqn:Hs; [|done].
    destruct (re_search_sound _ _ Hs) as (pre & mid & post & Heq & _).
    by destruct (H pre mid post).
Qed.

(** X2.  When [extract_json_from_response] returns a string, that string is
    a span of the text: it begins at the first opening bracket of the text (no
    opening bracket stands before it) and ends at the last closing bracket (no
    closing bracket stands after it). *)
Theorem extract_json_from_response_span (text m : string) :
  extract_json_from_response text = Some m →
  ∃ pre mid post,
    text = pre +:+ m +:+ post ∧ m = "[" +:+ mid +:+ "]" ∧
    has_char "[" pre = false ∧ has_char "]" post = false.
Proof.
  rewrite extract_json_eq. intros H.
  destruct (re_search_sound _ _ H) as (pre & mid & post & -> & -> & Hpre & Hpost).
  exists pre, mid, post. split_and!; [|done..].
  by rewrite !str_app_assoc.
Qed.

Lemma extract_json_from_response_span_witness :
  ∃ pre mid post,
    fenced_response = pre +:+ "[{}, {}]" +:+ post ∧
    "[{}, {}]" = "[" +:+ mid +:+ "]" ∧
    has_char "[" pre = false ∧ has_char "]" post = false.
Proof.
  apply (extract_json_from_response_span fenced_response "[{}, {}]").
  vm_compute. reflexivity.
Defined.

(** X3.  A bracketed text wrapped in a prefix without opening bracket and a
    suffix without closing bracket (a Markdown code fence, a sentence of
    introduction) is recovered exactly. *)
Theorem extract_json_from_response_wrapped (pre mid post : string) :
  has_char "[" pre = false → has_char "]" post = false →
  extract_json_from_response (pre +:+ "[" +:+ mid +:+ "]" +:+ post)
    = Some ("[" +:+ mid +:+ "]").
Proof.
  intros Hpre Hpost. rewrite extract_json_eq. by apply re_search_complete.
Qed.

Lemma extract_json_from_response_wrapped_witness :
  extract_json_from_response ("```json" +:+ "[" +:+ "{}, {}" +:+ "]" +:+ "```")
    = Some ("[" +:+ "{}, {}" +:+ "]").
Proof.
  apply (extract_json_from_response_wrapped "```json" "{}, {}" "```").
  - vm_compute. reflexivity.
  - vm_compute. reflexivity.
Defined.

(** X4.  Extraction is idempotent: what it returns is returned unchanged
    when extracted again. *)
Theorem extract_json_from_response_idempotent (text m : string) :
  extract_json_from_response text = Some m →
  extract_json_from_response m = Some m.
Proof.
  rewrite !extract_json_eq. intros H.
  destruct (re_search_sound _ _ H) as (pre & mid & post & _ & -> & _).
  rewrite <- (str_app_nil_r ("[" +:+ mid +:+ "]")) at 1.
  rewrite !str_app_assoc. by apply (re_search_complete "" mid "").
Qed.

Lemma extract_json_from_response_idempotent_witness :
  extract_json_from_response "[{}, {}]" = Some "[{}, {}]".
Proof.
  apply (extract_json_from_response_idempotent fenced_response "[{}, {}]").
  vm_compute. reflexivity.
Defined.

(** X5.  The match is greedy: every bracketed span of the text lies inside
    the string returned.  A response holding two arrays, or an array followed
    by a bracketed remark, is returned from its first opening bracket to its
    last closing bracket, with whatever stands between. *)
Theorem extract_json_from_response_greedy (text m a b c : string) :
  extract_json_from_response text = Some m →
  text = a +:+ "[" +:+ b +:+ "]" +:+ c →
  ∃ u v, m = u +:+ "[" +:+ b +:+ "]" +:+ v.
Proof.
  rewrite extract_json_eq. intros H Heq.
  destruct (re_search_sound _ _ H) as (pre & mid & post & Ht & Hm & Hpre & Hpost).
  rewrite <- !str_app_assoc in Ht. rewrite !str_app_assoc in Ht.
  assert (text = pre +:+ m +:+ post) as Ht'.
  { rewrite Ht, Hm. by rewrite !str_app_assoc. }
  clear Ht. rewrite Heq in Ht'. clear Heq H.
  destruct (str_app_eq_app _ _ _ _ Ht') as [k [[-> Hk]|[-> Hk]]].
  - (* the span starts inside or after the match *)
    rewrite <- !str_app_assoc in Hk.
    destruct (str_app_eq_app _ _ _ _ Hk) as [j [[-> _]|[Hj ->]]].
    + exists k, j. by rewrite !str_app_assoc.
    + destruct (has_char_last _ _ _ Hj) as [->|Hc].
      * rewrite str_app_nil_r in Hj. exists k, "".
        rewrite <- Hj. by rewrite !str_app_assoc.
      * rewrite has_char_app, Hc in Hpost. done.
  - (* the span would start before the match *)
    destruct k as [|x k].
    + rewrite str_app_nil_l in Hk. rewrite str_app_nil_r in Ht'.
      rewrite <- !str_app_assoc in Hk.
      destruct (str_app_eq_app _ _ _ _ Hk) as [j [[Hj ->]|[-> _]]].
      * destruct (has_char_last _ _ _ Hj) as [->|Hc].
        -- rewrite str_app_nil_r in Hj. exists "", "".
           rewrite <- Hj. by rewrite !str_app_assoc, str_app_nil_r.
        -- rewrite has_char_app, Hc in Hpost. done.
      * exists "", j. by rewrite !str_app_assoc.
    + rewrite str_app_cons in Hk.
      change ("[" +:+ b +:+ "]" +:+ c) with (String "["%char (b +:+ "]" +:+ c)) in Hk.
      injection Hk as <- _. rewrite has_char_app in Hpre.
      replace (has_char "[" (String "[" k)) with true in Hpre by done.
      by rewrite orb_true_r in Hpre.
Qed.

Lemma extract_json_from_response_greedy_witness :
  ∃ u v, "[1] and [2]" = u +:+ "[" +:+ "2" +:+ "]" +:+ v.
Proof.
  apply (extract_json_from_response_greedy
           "see [1] and [2]." "[1] and [2]" "see [1] and " "2" ".").
  - vm_compute. reflexivity.
  - vm_compute. reflexivity.
Defined.

(** ** Further properties of the assembly *)

(** X6.  [generate_student_document] returns a document exactly when every
    record of an iterated category (category absent, Hostel, Dayscholar or
    Uncategorized) has [year] and, when that year is First, has
    [full_name], [registration_number] and [department], with a name, a
    registration number, a section (or N/A) and a department that a run
    accepts, and, when that year is Fourth, Third or Second, has these three
    keys, with a department that is not empty and a department, a name and a
    registration number that a run accepts; on every other input it
    raises. *)
Theorem generate_student_document_returns_iff (students : list student) :
  (∃ doc, generate_student_document students = inr doc) ↔
  ∀ s, s ∈ students → category_of s ∈ category_order →
    has_key "year" s ∧
    (year_of s = "First" → row_ok s) ∧
    (year_of s ∈ ["Fourth"; "Third"; "Second"] → department_ok s ∧ senior_ok s).
Proof.
  split.
  - intros [doc H]. apply generate_student_document_inr in H as [Hr _].
    unfold renderable in Hr. rewrite Forall_forall in Hr.
    intros s Hs Hc. by apply record_ok_iff, Hr.
  - intros H. eexists. apply generate_student_document_ok.
    apply Forall_forall. intros s Hs Hc. by apply record_ok_iff, H.
Qed.

(** X8.  The document depends on the input only through the records of each
    iterated category, taken in input order: two inputs that agree on these
    three sub-lists (records of different categories interleaved differently,
    records of other categories added or removed) give the same result. *)
Theorem generate_student_document_by_category (l1 l2 : list student) :
  (∀ c, c ∈ ["Hostel"; "Dayscholar"; "Uncategorized"] →
     filter (in_category c) l1 = filter (in_category c) l2) →
  generate_student_document l1 = generate_student_document l2.
Proof.
  intros H. rewrite !generate_student_document_layout. unfold layout.
  rewrite (out_concat_ext (category_out l1) (category_out l2)); [done|].
  intros c Hc. unfold category_out. by rewrite (H c Hc).
Qed.

Lemma generate_student_document_by_category_witness :
  generate_student_document mixed_students
    = generate_student_document (reverse mixed_students).
Proof.
  apply (generate_student_document_by_category mixed_students
           (reverse mixed_students)).
  intros c Hc.
  repeat (apply elem_of_cons in Hc as [->|Hc]; [vm_compute; reflexivity|]).
  by apply elem_of_nil in Hc.
Defined.

(** X16.  The dictionary built by the first loop maps a category to the
    records having it (an absent category counting as Uncategorized), in
    input order, and has no entry for a category without record: no key is
    ever bound to an empty list. *)
Theorem categorize_lookup (students : list student) (c : string) :
  categorize students !! c =
  if decide (filter (in_category c) students = []) then None
  else Some (filter (in_category c) students).
Proof.
  rewrite (categorize_groups students c).
  change (filter (λ s : student, category_of s = c) students)
    with (filter (in_category c) students).
  by destruct (filter (in_category c) students).
Qed.

(** X12.  In a non-empty first-year bucket, a record without [department]
    makes [add_first_year_table] raise [KeyError] for [department], whatever
    else is missing and wherever the record stands: the sort key is computed
    for every record before any row is written. *)
Theorem add_first_year_table_department_first (students : list student) (d : document) :
  students ≠ [] → ¬ Forall (has_key "department") students →
  add_first_year_table students d = inl (KeyError "department").
Proof.
  intros Hne H. rewrite (emits_add_first_year_table students d I).
  unfold first_year_table_out. destruct students; [done|].
  by rewrite decide_False.
Qed.

Lemma add_first_year_table_department_first_witness :
  add_first_year_table incomplete_first_years docx_Document
    = inl (KeyError "department").
Proof.
  apply (add_first_year_table_department_first incomplete_first_years).
  - discriminate.
  - apply (bool_decide_unpack _). vm_compute. reflexivity.
Defined.

Lemma out_concat_imap_first {A B} (f : nat → A → error + list B)
    (l1 l2 : list A) x e :
  (∀ i y, l1 !! i = Some y → ¬ is_error (f i y)) →
  f (length l1) x = inl e →
  out_concat (imap f (l1 ++ x :: l2)) = inl e.
Proof.
  revert f. induction l1 as [|y l1 IH]; intros f Hok He.
  - rewrite app_nil_l, imap_cons, out_concat_cons. simpl in He. by rewrite He.
  - rewrite <- app_comm_cons, imap_cons, out_concat_cons.
    destruct (f 0 y) as [e'|b] eqn:Hy.
    + destruct (Hok 0 y eq_refl). rewrite Hy. by eexists.
    + rewrite (IH (f ∘ S)); [done| |exact He].
      intros i z Hz. by apply (Hok (S i)).
Qed.

(** X13.  [add_senior_student_list] raises for the first student, in list
    order, that it cannot render, and the error is that of the first thing
    that fails for this student, in the order of the program: [KeyError] for
    [full_name] when that key is missing; [ValueError] when the name is not a
    text that a run accepts; [KeyError] for [registration_number] when that
    key is missing; [ValueError] otherwise, the registration number being
    refused. *)
Theorem add_senior_student_list_first_error
    (l1 l2 : list student) (s : student) (d : document) :
  Forall senior_ok l1 → ¬ senior_ok s →
  add_senior_student_list (l1 ++ s :: l2) d =
  inl (if decide (has_key "full_name" s) then
         if xml_compatible (name_of s) then
           if decide (has_key "registration_number" s) then ValueError
           else KeyError "registration_number"
         else ValueError
       else KeyError "full_name").
Proof.
  intros Hl Hs. rewrite (emits_add_senior_student_list _ d I).
  unfold senior_list_out. erewrite out_concat_imap_first; [done| |].
  - intros i y Hy. rewrite senior_entry_ok; [apply is_error_inr|].
    rewrite Forall_forall in Hl. apply Hl. by eapply list_elem_of_lookup_2.
  - rewrite senior_entry_eq.
    destruct (decide (has_key "full_name" s)) as [Hn|Hn]; [|done].
    destruct (xml_compatible (name_of s)) eqn:Htn; [|done].
    destruct (decide (has_key "registration_number" s)) as [Hr|Hr]; [|done].
    destruct (xml_compatible (registration_of s)) eqn:Htr; [|done].
    by destruct Hs.
Qed.

Lemma add_senior_student_list_first_error_witness :
  add_senior_student_list (scenario_B ++ form_feed_student :: [unregistered_student])
                          docx_Document =
  inl (if decide (has_key "full_name" form_feed_student) then
         if xml_compatible (name_of form_feed_student) then
           if decide (has_key "registration_number" form_feed_student) then ValueError
           else KeyError "registration_number"
         else ValueError
       else KeyError "full_name").
Proof.
  apply (add_senior_student_list_first_error scenario_B [unregistered_student]
           form_feed_student).
  - apply (bool_decide_unpack _). vm_compute. reflexivity.
  - apply (bool_decide_unpack _). vm_compute. reflexivity.
Defined.

(** ** Where an error comes from *)

Lemma out_app_inl {A} (o1 o2 : error + list A) e :
  out_app o1 o2 = inl e → o1 = inl e ∨ o2 = inl e.
Proof.
  destruct o1 as [e1|b1]; [intros [= ->]; by left|].
  destruct o2 as [e2|b2]; [intros [= ->]; by right|done].
Qed.

Lemma out_concat_inl {A} (os : list (error + list A)) e :
  out_concat os = inl e → inl e ∈ os.
Proof.
  induction os as [|o os IH]; [done|]. rewrite out_concat_cons.
  intros [->|H]%out_app_inl; [left|right; auto].
Qed.

Lemma elem_of_imap {A B} (f : nat → A → B) (l : list A) y :
  y ∈ imap f l → ∃ i x, l !! i = Some x ∧ y = f i x.
Proof.
  intros [i Hi]%list_elem_of_lookup. rewrite list_lookup_imap in Hi.
  destruct (l !! i) as [x|] eqn:Hx; [|done]. injection Hi as <-. eauto.
Qed.

Lemma missing_key_weaken ks ks' e s :
  ks ⊆ ks' → missing_key ks e s → missing_key ks' e s.
Proof. intros Hsub (k & ? & ? & ?). exists k. split_and!; auto. Qed.

Lemma field_inl (s : student) key e :
  field s key = inl e → e = KeyError key ∧ ¬ has_key key s.
Proof.
  unfold field, has_key. destruct (s !! key); [done|]. intros [= <-].
  split; [done|]. apply is_Some_None.
Qed.

Lemma refused_weaken ts ts' e : ts ⊆ ts' → refused ts e → refused ts' e.
Proof. intros Hsub (? & t & ? & ?). split; [done|]. exists t. auto. Qed.

Lemma senior_entry_inl i s e :
  senior_entry i s = inl e →
  missing_key ["full_name"; "registration_number"] e s ∨
  refused [name_of s; registration_of s] e.
Proof.
  rewrite senior_entry_eq.
  destruct (decide (has_key "full_name" s)) as [Hn|Hn].
  2: { intros [= <-]. left. exists "full_name". split_and!; [done|by left|done]. }
  destruct (xml_compatible (name_of s)) eqn:Htn.
  2: { intros [= <-]. right. split; [done|]. exists (name_of s).
       split; [by left|done]. }
  destruct (decide (has_key "registration_number" s)) as [Hr|Hr].
  2: { intros [= <-]. left. exists "registration_number".
       split_and!; [done|by right; left|done]. }
  destruct (xml_compatible (registration_of s)) eqn:Htr; [done|].
  intros [= <-]. right. split; [done|]. exists (registration_of s).
  split; [by right; left|done].
Qed.

Lemma data_row_inl i s e :
  data_row i s = inl e →
  missing_key ["department"; "full_name"; "registration_number"] e s ∨
  refused (written_texts "First" s) e.
Proof.
  rewrite data_row_eq.
  destruct (decide (has_key "full_name" s)) as [Hn|Hn].
  2: { intros [= <-]. left. exists "full_name".
       split_and!; [done|by right; left|done]. }
  destruct (decide (has_key "registration_number" s)) as [Hr|Hr].
  2: { intros [= <-]. left. exists "registration_number".
       split_and!; [done|by right; right; left|done]. }
  destruct (decide (has_key "department" s)) as [Hd|Hd].
  2: { intros [= <-]. left. exists "department". split_and!; [done|by left|done]. }
  destruct (xml_compatible (name_of s)) eqn:H1.
  2: { intros [= <-]. right. split; [done|]. exists (name_of s).
       split; [by left|done]. }
  destruct (xml_compatible (registration_of s)) eqn:H2.
  2: { intros [= <-]. right. split; [done|]. exists (registration_of s).
       split; [by right; left|done]. }
  destruct (xml_compatible (default "N/A" (s !! "section"))) eqn:H3.
  2: { intros [= <-]. right. split; [done|]. exists (default "N/A" (s !! "section")).
       split; [by right; right; left|done]. }
  destruct (xml_compatible (department_of s)) eqn:H4; [done|].
  intros [= <-]. right. split; [done|]. exists (department_of s).
  split; [by right; right; right; left|done].
Qed.

Lemma senior_list_out_inl l e :
  senior_list_out l = inl e →
  ∃ s, s ∈ l ∧ (missing_key ["full_name"; "registration_number"] e s ∨
                refused [name_of s; registration_of s] e).
Proof.
  intros H. apply out_concat_inl, elem_of_imap in H as (i & s & Hs & He).
  exists s. split; [by eapply list_elem_of_lookup_2|].
  by eapply senior_entry_inl.
Qed.

Lemma lacking_key key (l : list student) :
  ¬ Forall (has_key key) l → ∃ s, s ∈ l ∧ ¬ has_key key s.
Proof.
  intros H. apply not_Forall_Exists in H; [|apply _].
  by apply Exists_exists in H.
Qed.

Lemma first_year_table_out_inl l e :
  first_year_table_out l = inl e →
  ∃ s, s ∈ l ∧
    (missing_key ["department"; "full_name"; "registration_number"] e s ∨
     refused (written_texts "First" s) e).
Proof.
  unfold first_year_table_out. destruct l as [|s0 l']; [done|].
  set (l := s0 :: l').
  destruct (decide (Forall (has_key "department") l)) as [Hd|Hd].
  - destruct (out_concat _) as [e'|rows] eqn:Hrows; [|done]. intros [= <-].
    apply out_concat_inl, elem_of_imap in Hrows as (i & s & Hs & He).
    exists s. split.
    + rewrite <- (sort_by_department_perm l). by eapply list_elem_of_lookup_2.
    + by eapply data_row_inl.
  - intros [= <-]. destruct (lacking_key _ _ Hd) as (s & Hs & Hk).
    exists s. split; [done|]. left.
    exists "department". split_and!; [done|by left|done].
Qed.

Lemma heading_out_inl level text e :
  heading_out level text = inl e →
  (e = IndexError ∧ text = "") ∨ (e = ValueError ∧ xml_compatible text = false).
Proof.
  unfold heading_out, run_out. destruct (decide (text = "")).
  - intros [= <-]. by left.
  - destruct (xml_compatible text); [done|]. intros [= <-]. by right.
Qed.

(** The fixed headings are never refused. *)
Lemma heading_out_fixed level text e :
  text ≠ "" → text_ok text → heading_out level text ≠ inl e.
Proof. intros Hne Hok. by rewrite heading_out_ok. Qed.

Lemma senior_year_out_inl g e :
  senior_year_out g = inl e →
  ∃ s, s ∈ g ∧
    (missing_key ["department"; "full_name"; "registration_number"] e s ∨
     (e = IndexError ∧ s !! "department" = Some "") ∨
     refused [department_of s; name_of s; registration_of s] e).
Proof.
  unfold senior_year_out.
  destruct (decide (Forall (has_key "department") g)) as [Hd|Hd].
  - intros H. apply out_concat_inl in H.
    apply list_elem_of_fmap in H as (d & He & Hin). symmetry in He.
    unfold department_out in He. apply out_app_inl in He as [He|He].
    + apply elem_of_departments in Hin as (s & Hs & Hsd).
      exists s. split; [done|]. right.
      apply heading_out_inl in He as [[-> ->]|[-> He]]; [by left|right].
      split; [done|]. exists d. split; [|done].
      unfold department_of. rewrite Hsd. by left.
    + apply senior_list_out_inl in He as (s & Hs & Hm).
      apply list_elem_of_filter in Hs as [_ Hs]. exists s. split; [done|].
      destruct Hm as [Hm|Hm]; [left|right; right].
      * eapply missing_key_weaken; [|exact Hm]. intros k Hk. by right.
      * eapply refused_weaken; [|exact Hm]. intros k Hk. by right.
  - intros [= <-]. destruct (lacking_key _ _ Hd) as (s & Hs & Hk).
    exists s. split; [done|]. left.
    exists "department". split_and!; [done|by left|done].
Qed.

Lemma year_out_inl l y e :
  y ∈ year_order → year_out l y = inl e →
  ∃ s, s ∈ l ∧ in_year y s ∧
    (missing_key ["department"; "full_name"; "registration_number"] e s ∨
     (e = IndexError ∧ s !! "department" = Some "" ∧ y ≠ "First") ∨
     refused (written_texts y s) e).
Proof.
  intros Hin. unfold year_out.
  destruct (filter (in_year y) l) as [|s0 g'] eqn:Hg; [done|].
  rewrite <- Hg. clear Hg. intros [H|H]%out_app_inl.
  { by apply heading_out_fixed in H;
      [|apply year_heading_ne|apply year_heading_ok]. }
  destruct (decide (y = "First")) as [->|Hy].
  - apply first_year_table_out_inl in H as (s & Hs & Hm).
    apply list_elem_of_filter in Hs as [? ?]. exists s.
    split_and!; [done|done|]. destruct Hm; auto.
  - apply senior_year_out_inl in H as (s & Hs & Hm).
    apply list_elem_of_filter in Hs as [? ?]. exists s. split_and!; [done|done|].
    destruct Hm as [?|[[? ?]|?]]; auto.
    right; right. unfold written_texts. by rewrite decide_False.
Qed.

Lemma senior_years y : y ∈ year_order → y ≠ "First" → y ∈ ["Fourth"; "Third"; "Second"].
Proof.
  unfold year_order. intros Hy Hn.
  repeat (apply elem_of_cons in Hy as [->|Hy]; [by repeat constructor|]).
  by apply elem_of_nil in Hy.
Qed.

Lemma years_out_inl l e :
  years_out l = inl e → ∃ s, s ∈ l ∧ blamed e s.
Proof.
  unfold years_out. destruct (decide (Forall (has_key "year") l)) as [Hy|Hy].
  - intros H. apply out_concat_inl in H.
    apply list_elem_of_fmap in H as (y & He & Hin). symmetry in He.
    apply year_out_inl in He as (s & Hs & Hsy & Hb); [|done].
    exists s. split; [done|].
    destruct Hb as [(k & -> & Hk & Hno)|[(-> & Hd & Hnf)|[-> Ht]]].
    + left. exists k. split_and!; [done| |done]. by right.
    + right; left. split_and!; [done|done|].
      rewrite (in_year_year_of _ _ Hsy). by apply senior_years.
    + right; right. rewrite (in_year_year_of _ _ Hsy). done.
  - intros [= <-]. destruct (lacking_key _ _ Hy) as (s & Hs & Hk).
    exists s. split; [done|]. left.
    exists "year". split_and!; [done|by left|done].
Qed.

Lemma category_out_inl students c e :
  c ∈ category_order → category_out students c = inl e →
  ∃ s, s ∈ students ∧ category_of s = c ∧ blamed e s.
Proof.
  intros Hc. unfold category_out.
  destruct (filter (in_category c) students) as [|s0 l'] eqn:Hl; [done|].
  rewrite <- Hl. clear Hl. intros [H|H]%out_app_inl.
  - unfold category_heading_out in H.
    destruct (decide (c = "Uncategorized")); [done|].
    by apply heading_out_fixed in H; [|apply category_ne|apply category_text_ok].
  - apply years_out_inl in H as (s & Hs & Hb).
    apply list_elem_of_filter in Hs as [? ?]. by exists s.
Qed.

(** X7.  Every error of [generate_student_document] is due to a record of
    an iterated category.  A [KeyError] names one of the four mandatory keys,
    and that record lacks it; an [IndexError] arises only from a Fourth,
    Third or Second year record whose department is the empty string; a
    [ValueError] arises only from a record of one of the four years, one of
    whose written texts no run accepts (name, registration number, section
    or N/A and department for a First year; department, name and
    registration number for the other years).  No other error is raised. *)
Theorem generate_student_document_error_cause (students : list student) (e : error) :
  generate_student_document students = inl e →
  ∃ s, s ∈ students ∧ category_of s ∈ category_order ∧
    ((∃ k, e = KeyError k ∧
           k ∈ ["year"; "department"; "full_name"; "registration_number"] ∧
           ¬ has_key k s) ∨
     (e = IndexError ∧ s !! "department" = Some "" ∧
      year_of s ∈ ["Fourth"; "Third"; "Second"]) ∨
     (e = ValueError ∧ year_of s ∈ ["Fourth"; "Third"; "Second"; "First"] ∧
      ∃ t, t ∈ written_texts (year_of s) s ∧ xml_compatible t = false)).
Proof.
  rewrite generate_student_document_layout.
  destruct (layout students) as [e'|bs] eqn:Hl; [|done]. intros [= ->].
  unfold layout in Hl. apply out_app_inl in Hl as [Hl|Hl].
  { by apply heading_out_fixed in Hl. }
  apply out_concat_inl in Hl.
  apply list_elem_of_fmap in Hl as (c & He & Hc). symmetry in He.
  apply category_out_inl in He as (s & Hs & <- & Hb); [|done].
  by exists s.
Qed.

Lemma generate_student_document_error_cause_witness :
  ∃ s, s ∈ [form_feed_student] ∧ category_of s ∈ category_order ∧
    ((∃ k, ValueError = KeyError k ∧
           k ∈ ["year"; "department"; "full_name"; "registration_number"] ∧
           ¬ has_key k s) ∨
     (ValueError = IndexError ∧ s !! "department" = Some "" ∧
      year_of s ∈ ["Fourth"; "Third"; "Second"]) ∨
     (ValueError = ValueError ∧ year_of s ∈ ["Fourth"; "Third"; "Second"; "First"] ∧
      ∃ t, t ∈ written_texts (year_of s) s ∧ xml_compatible t = false)).
Proof.
  apply (generate_student_document_error_cause [form_feed_student]).
  vm_compute. reflexivity.
Defined.

(** ** The table and the list, once more *)

Lemma StronglySorted_lookup {A} (R : relation A) (l : list A) i j x y :
  StronglySorted R l → i < j → l !! i = Some x → l !! j = Some y → R x y.
Proof.
  intros Hs. revert i j. induction Hs as [|z l Hs IH Hz]; intros i j Hij Hi Hj.
  - done.
  - destruct j as [|j]; [lia|]. destruct i as [|i].
    + injection Hi as ->. rewrite Forall_forall in Hz. apply Hz.
      by eapply list_elem_of_lookup_2.
    + apply (IH i j); [lia|done|done].
Qed.

Lemma imap_ignore_index {A B} (f : A → B) (l : list A) :
  imap (λ i x, f x) l = f <$> l.
Proof.
  induction l as [|x l IH]; [done|]. rewrite imap_cons, fmap_cons. f_equal.
  exact IH.
Qed.

Lemma department_column_table l :
  department_column (first_year_table (table_rows l)) =
  department_of <$> sort_by_department l.
Proof.
  unfold department_column, table_rows. cbn [first_year_table t_rows tail].
  rewrite fmap_imap. by apply (imap_ignore_index department_of).
Qed.

(** X9.  For a non-empty first-year bucket whose records have their keys
    and texts that a run accepts, the table is appended, and in it the
    students of one department stand in consecutive rows: a row between two
    rows of the same department is of that department too. *)
Theorem add_first_year_table_grouped (students : list student) (d : document) :
  students ≠ [] → Forall row_ok students →
  ∃ tb, add_first_year_table students d
          = inr ((), set_body (body d ++ [BTable tb]) d) ∧
    length (department_column tb) = length students ∧
    ∀ i j k a, i ≤ j → j ≤ k →
      department_column tb !! i = Some a →
      department_column tb !! k = Some a →
      department_column tb !! j = Some a.
Proof.
  intros Hne H. exists (first_year_table (table_rows students)). split_and!.
  - rewrite (emits_add_first_year_table students d I).
    by rewrite first_year_table_out_ok.
  - by rewrite department_column_table, length_fmap, sort_by_department_perm.
  - rewrite department_column_table. intros i j k a Hij Hjk Hi Hk.
    rewrite list_lookup_fmap in Hi, Hk |- *.
    destruct (sort_by_department students !! i) as [si|] eqn:Hsi; [|done].
    destruct (sort_by_department students !! k) as [sk|] eqn:Hsk; [|done].
    destruct (sort_by_department students !! j) as [sj|] eqn:Hsj.
    2: { apply lookup_ge_None in Hsj. apply lookup_lt_Some in Hsk. lia. }
    simpl in *. injection Hi as Hi. injection Hk as Hk. f_equal.
    pose proof (sort_by_department_sorted students) as Hs.
    destruct (decide (i = j)) as [->|Hne1]; [congruence|].
    destruct (decide (j = k)) as [->|Hne2]; [congruence|].
    apply (anti_symm str_le).
    + rewrite <- Hk.
      apply (StronglySorted_lookup _ _ j k sj sk Hs); [lia|done|done].
    + rewrite <- Hi.
      apply (StronglySorted_lookup _ _ i j si sj Hs); [lia|done|done].
Qed.

Lemma add_first_year_table_grouped_witness :
  ∃ tb, add_first_year_table first_year_trio docx_Document
          = inr ((), set_body (body docx_Document ++ [BTable tb]) docx_Document) ∧
    length (department_column tb) = length first_year_trio ∧
    ∀ i j k a, i ≤ j → j ≤ k →
      department_column tb !! i = Some a →
      department_column tb !! k = Some a →
      department_column tb !! j = Some a.
Proof.
  apply (add_first_year_table_grouped first_year_trio docx_Document).
  - discriminate.
  - apply (bool_decide_unpack _). vm_compute. reflexivity.
Defined.

Lemma table_rows_shape l row :
  row ∈ t_rows (first_year_table (table_rows l)) →
  length row = 5 ∧ Forall (λ c, length (p_runs c) = 1) row.
Proof.
  change (t_rows (first_year_table (table_rows l)))
    with (header_row :: table_rows l).
  intros [->|Hrow]%elem_of_cons.
  - split; [done|]. by repeat constructor.
  - unfold table_rows in Hrow. apply elem_of_imap in Hrow as (i & s & _ & ->).
    split; [done|]. by repeat constructor.
Qed.

(** X10.  For a non-empty first-year bucket whose records have their keys
    and texts that a run accepts, the table [add_first_year_table] appends
    has the Table Grid style, autofit switched off, the column widths 0.1, 2,
    1, 0.1 and 1 inch, one row more than there are students, and in every row
    exactly five cells, each holding exactly one run. *)
Theorem add_first_year_table_layout (students : list student) (d : document) :
  students ≠ [] → Forall row_ok students →
  ∃ tb, add_first_year_table students d
          = inr ((), set_body (body d ++ [BTable tb]) d) ∧
    t_style tb = Some TableGrid ∧
    t_autofit tb = false ∧
    t_widths tb = [Some 91440; Some 1828800; Some 914400; Some 91440; Some 914400]%Z ∧
    length (t_rows tb) = S (length students) ∧
    Forall (λ row, length row = 5 ∧ Forall (λ c, length (p_runs c) = 1) row)
           (t_rows tb).
Proof.
  intros Hne H. exists (first_year_table (table_rows students)). split_and!.
  - rewrite (emits_add_first_year_table students d I).
    by rewrite first_year_table_out_ok.
  - done.
  - done.
  - done.
  - cbn [first_year_table t_rows length]. unfold table_rows.
    by rewrite length_imap, sort_by_department_perm.
  - apply Forall_forall. intros row. apply table_rows_shape.
Qed.

Lemma add_first_year_table_layout_witness :
  ∃ tb, add_first_year_table first_year_trio docx_Document
          = inr ((), set_body (body docx_Document ++ [BTable tb]) docx_Document) ∧
    t_style tb = Some TableGrid ∧
    t_autofit tb = false ∧
    t_widths tb = [Some 91440; Some 1828800; Some 914400; Some 91440; Some 914400]%Z ∧
    length (t_rows tb) = S (length first_year_trio) ∧
    Forall (λ row, length row = 5 ∧ Forall (λ c, length (p_runs c) = 1) row)
           (t_rows tb).
Proof.
  apply (add_first_year_table_layout first_year_trio docx_Document).
  - discriminate.
  - apply (bool_decide_unpack _). vm_compute. reflexivity.
Defined.

Lemma emits_success m o d d' :
  emits m o → m d = inr ((), d') → ∃ bs, o = inr bs ∧ d' = grow_blocks bs d.
Proof.
  intros Hm H. rewrite (Hm d I) in H. destruct o as [e|bs]; [done|].
  injection H as <-. eauto.
Qed.

(** X11.  Neither [add_senior_student_list] nor [add_first_year_table]
    touches what the document already holds: when they return, the font
    settings are unchanged and the body is the former body followed by the
    new blocks, as many paragraphs as students for the list, and one table
    (none for an empty bucket) for the table. *)
Theorem add_blocks_frame (students : list student) (d d' : document) :
  (add_senior_student_list students d = inr ((), d') →
   normal_font_name d' = normal_font_name d ∧
   normal_font_size d' = normal_font_size d ∧
   ∃ new, body d' = body d ++ new ∧ length new = length students ∧
          Forall (λ b, ∃ p, b = BParagraph p) new) ∧
  (add_first_year_table students d = inr ((), d') →
   normal_font_name d' = normal_font_name d ∧
   normal_font_size d' = normal_font_size d ∧
   ∃ new, body d' = body d ++ new ∧
          length new = (if decide (students = []) then 0 else 1) ∧
          Forall (λ b, ∃ t, b = BTable t) new).
Proof.
  split; intros H.
  - apply (emits_success _ _ _ _ (emits_add_senior_student_list students)) in H
      as (bs & Hbs & ->).
    destruct (decide (Forall senior_ok students)) as [Hok|Hno].
    2: { destruct (senior_list_out_error _ Hno) as [e He]. congruence. }
    rewrite senior_list_out_ok in Hbs by done. injection Hbs as <-.
    split_and!; [done|done|]. eexists. split_and!; [done| |].
    + unfold senior_paragraphs. by rewrite length_imap.
    + apply Forall_forall. intros b (i & s & _ & ->)%elem_of_imap. eauto.
  - apply (emits_success _ _ _ _ (emits_add_first_year_table students)) in H
      as (bs & Hbs & ->).
    split_and!; [done|done|]. exists bs. split; [done|].
    destruct (decide (students = [])) as [->|Hne].
    { injection Hbs as <-. by split. }
    destruct (decide (Forall row_ok students)) as [Hok|Hno].
    2: { destruct (first_year_table_out_error _ Hne Hno) as [e He]. congruence. }
    rewrite first_year_table_out_ok in Hbs by done. injection Hbs as <-.
    split; [done|]. repeat constructor. eauto.
Qed.

Lemma add_blocks_frame_witness :
  ∃ d',
    add_first_year_table scenario_A (finished [heading 0 "VOLUNTEERS LIST"])
      = inr ((), d') ∧
    normal_font_name d' = Some "Times New Roman" ∧
    normal_font_size d' = Some (Pt 12) ∧
    ∃ new, body d' = [heading 0 "VOLUNTEERS LIST"] ++ new ∧
           length new = (if decide (scenario_A = []) then 0 else 1) ∧
           Forall (λ b, ∃ t, b = BTable t) new.
Proof.
  eexists. split; [vm_compute; reflexivity|].
  apply (proj2 (add_blocks_frame scenario_A
                  (finished [heading 0 "VOLUNTEERS LIST"]) _)).
  vm_compute. reflexivity.
Defined.

(** ** The tables and the list paragraphs of a document *)

Lemma tables_app a b : tables (a ++ b) = tables a ++ tables b.
Proof. apply flat_map_app. Qed.

Lemma tables_senior_paragraphs l : tables (senior_paragraphs l) = [].
Proof.
  unfold senior_paragraphs. generalize S as f.
  induction l as [|s l IH]; intros f; [done|].
  rewrite imap_cons. apply (IH (f ∘ S)).
Qed.

Lemma tables_departments g ds :
  tables (flat_map (department_section g) ds) = [].
Proof.
  induction ds as [|d ds IH]; [done|]. cbn [flat_map].
  rewrite tables_app, IH. unfold department_section.
  cbn [tables flat_map heading]. by rewrite tables_senior_paragraphs.
Qed.

Lemma tables_year_section l y :
  tables (year_section l y) =
  if decide (y = "First") then
    match filter (in_year y) l with
    | [] => []
    | g => [first_year_table (table_rows g)]
    end
  else [].
Proof.
  unfold year_section. destruct (filter (in_year y) l) as [|s g].
  - by destruct (decide _).
  - destruct (decide (y = "First")); [done|].
    change (tables (flat_map (department_section (s :: g)) (departments (s :: g))) = []).
    apply tables_departments.
Qed.

Lemma tables_category_section students c :
  tables (category_section students c) =
  match first_years students c with
  | [] => []
  | g => [first_year_table (table_rows g)]
  end.
Proof.
  rewrite category_section_eq. unfold first_years.
  destruct (decide (filter (in_category c) students = [])) as [->|_]; [done|].
  rewrite tables_app.
  assert (tables (category_heading c) = []) as ->.
  { unfold category_heading. by destruct (decide _). }
  unfold year_order. cbn [flat_map]. rewrite !tables_app, !tables_year_section.
  rewrite !decide_False by done. rewrite decide_True by done.
  by rewrite app_nil_r.
Qed.

(** X14.  A returned document holds one table for each of Hostel,
    Dayscholar, Uncategorized that has first-year records, in this order, and
    no other table: the first-year records of a category are never split over
    several tables, and those of different categories never share one. *)
Theorem generate_student_document_tables (students : list student) (doc : document) :
  generate_student_document students = inr doc →
  tables (body doc) =
  flat_map (λ c,
    match filter (in_year "First") (filter (in_category c) students) with
    | [] => []
    | g => [first_year_table (table_rows g)]
    end) ["Hostel"; "Dayscholar"; "Uncategorized"].
Proof.
  intros H. apply generate_student_document_inr in H as [_ ->].
  unfold finished, document_blocks, category_order. cbn [body].
  change (heading 0 "VOLUNTEERS LIST" :: ?x)
    with ([heading 0 "VOLUNTEERS LIST"] ++ x).
  rewrite tables_app. cbn [flat_map]. rewrite !tables_app.
  by rewrite !tables_category_section.
Qed.

Lemma generate_student_document_tables_witness :
  ∃ doc, generate_student_document scenario_A = inr doc ∧
  tables (body doc) =
  flat_map (λ c,
    match filter (in_year "First") (filter (in_category c) scenario_A) with
    | [] => []
    | g => [first_year_table (table_rows g)]
    end) ["Hostel"; "Dayscholar"; "Uncategorized"].
Proof.
  eexists. split; [vm_compute; reflexivity|].
  apply (generate_student_document_tables scenario_A). vm_compute. reflexivity.
Defined.

(** X15.  In a returned document every paragraph that is not a heading is a
    list paragraph with a hanging indent: a left indent of half an inch, a
    first-line indent of minus a quarter of an inch, three tab stops and three
    runs. *)
Theorem generate_student_document_list_format
    (students : list student) (doc : document) (p : paragraph) :
  generate_student_document students = inr doc →
  BParagraph p ∈ body doc →
  heading_level (BParagraph p) = None →
  p_left_indent p = Some 457200%Z ∧
  p_first_line_indent p = Some (-228600)%Z ∧
  length (p_tab_stops p) = 3 ∧
  length (p_runs p) = 3.
Proof.
  intros H Hp Hl. apply generate_student_document_inr in H as [Hr ->].
  assert (Forall
    (λ b, ∀ q, b = BParagraph q → heading_level b = None →
       p_left_indent q = Some 457200%Z ∧
       p_first_line_indent q = Some (-228600)%Z ∧
       length (p_tab_stops q) = 3 ∧ length (p_runs q) = 3)
    (document_blocks students)) as HF.
  { apply Forall_document_blocks; [| | |done].
    - intros level text _ _ q _. unfold heading, heading_level, heading_style.
      cbn [p_style]. by destruct (decide (level = 0)).
    - by intros i name reg q [= <-] _.
    - by intros l q. }
  rewrite Forall_forall in HF. by apply (HF (BParagraph p)).
Qed.

Lemma generate_student_document_list_format_witness :
  p_left_indent (senior_paragraph 1 "Chitra" "SEC24CS011") = Some 457200%Z ∧
  p_first_line_indent (senior_paragraph 1 "Chitra" "SEC24CS011")
    = Some (-228600)%Z ∧
  length (p_tab_stops (senior_paragraph 1 "Chitra" "SEC24CS011")) = 3 ∧
  length (p_runs (senior_paragraph 1 "Chitra" "SEC24CS011")) = 3.
Proof.
  apply (generate_student_document_list_format scenario_B
           (finished (document_blocks scenario_B))).
  - vm_compute. reflexivity.
  - apply (list_elem_of_lookup_2 _ 4). vm_compute. reflexivity.
  - reflexivity.
Defined.

(** ** The outline does not depend on the order of the input *)

Lemma headings_app a b : headings (a ++ b) = headings a ++ headings b.
Proof. apply flat_map_app. Qed.

Lemma headings_heading level text :
  headings [heading level text] = [(level, text)].
Proof.
  unfold headings, heading, heading_level, heading_style. cbn.
  by destruct (decide (level = 0)) as [->|].
Qed.

Lemma headings_cons_heading level text bs :
  headings (heading level text :: bs) = (level, text) :: headings bs.
Proof.
  change (heading level text :: bs) with ([heading level text] ++ bs).
  by rewrite headings_app, headings_heading.
Qed.

Lemma headings_senior_paragraphs l : headings (senior_paragraphs l) = [].
Proof.
  unfold senior_paragraphs. generalize S as f.
  induction l as [|s l IH]; intros f; [done|].
  rewrite imap_cons. apply (IH (f ∘ S)).
Qed.

Lemma headings_departments g ds :
  headings (flat_map (department_section g) ds) = (λ d, (3, d)) <$> ds.
Proof.
  induction ds as [|d ds IH]; [done|]. cbn [flat_map].
  rewrite headings_app, IH. unfold department_section.
  by rewrite headings_cons_heading, headings_senior_paragraphs.
Qed.

Lemma headings_year_section l y :
  headings (year_section l y) =
  if decide (filter (in_year y) l = []) then []
  else (2, y +:+ " Year") ::
       (if decide (y = "First") then []
        else (λ d, (3, d)) <$> departments (filter (in_year y) l)).
Proof.
  rewrite year_section_eq. destruct (decide _); [done|].
  rewrite headings_cons_heading. unfold year_content.
  destruct (decide (y = "First")); [done|]. by rewrite headings_departments.
Qed.

Lemma headings_flat_map {A} (f : A → list block) (l : list A) :
  headings (flat_map f l) = flat_map (λ x, headings (f x)) l.
Proof.
  induction l as [|x l IH]; [done|]. cbn [flat_map].
  by rewrite headings_app, IH.
Qed.

Lemma Permutation_nil_iff {A} (l1 l2 : list A) : l1 ≡ₚ l2 → l1 = [] ↔ l2 = [].
Proof.
  intros H. split; intros ->.
  - by apply Permutation_nil_l in H.
  - by apply Permutation_nil_r in H.
Qed.

Lemma departments_perm g1 g2 : g1 ≡ₚ g2 → departments g1 = departments g2.
Proof.
  intros H. unfold departments. apply sorted_unique.
  apply NoDup_Permutation; [apply NoDup_remove_dups..|].
  intros d. rewrite !elem_of_remove_dups, !list_elem_of_omap.
  by setoid_rewrite H.
Qed.

Lemma headings_year_section_perm l1 l2 y :
  l1 ≡ₚ l2 → headings (year_section l1 y) = headings (year_section l2 y).
Proof.
  intros H. rewrite !headings_year_section.
  assert (filter (in_year y) l1 ≡ₚ filter (in_year y) l2) as Hf by (by rewrite H).
  destruct (decide (filter (in_year y) l1 = [])) as [H1|H1];
    destruct (decide (filter (in_year y) l2 = [])) as [H2|H2]; [done|..].
  - by apply (Permutation_nil_iff _ _ Hf) in H1.
  - by apply (Permutation_nil_iff _ _ Hf) in H2.
  - by rewrite (departments_perm _ _ Hf).
Qed.

Lemma headings_category_section_perm l1 l2 c :
  l1 ≡ₚ l2 →
  headings (category_section l1 c) = headings (category_section l2 c).
Proof.
  intros H. rewrite !category_section_eq.
  assert (filter (in_category c) l1 ≡ₚ filter (in_category c) l2) as Hf
    by (by rewrite H).
  destruct (decide (filter (in_category c) l1 = [])) as [H1|H1];
    destruct (decide (filter (in_category c) l2 = [])) as [H2|H2]; [done|..].
  - by apply (Permutation_nil_iff _ _ Hf) in H1.
  - by apply (Permutation_nil_iff _ _ Hf) in H2.
  - rewrite !headings_app, !headings_flat_map. f_equal.
    apply flat_map_ext. intros y. by apply headings_year_section_perm.
Qed.

Lemma renderable_perm l1 l2 : l1 ≡ₚ l2 → renderable l1 → renderable l2.
Proof. unfold renderable. by intros ->. Qed.

(** X17.  Reordering the input changes neither whether a document is
    returned nor its outline: two inputs that are permutations of each other
    both raise or both return, and the documents returned have the same
    headings (title, categories, years, departments) in the same order. *)
Theorem generate_student_document_outline (l1 l2 : list student) :
  l1 ≡ₚ l2 →
  ((∃ d1, generate_student_document l1 = inr d1) ↔
   (∃ d2, generate_student_document l2 = inr d2)) ∧
  ∀ d1 d2,
    generate_student_document l1 = inr d1 →
    generate_student_document l2 = inr d2 →
    headings (body d1) = headings (body d2).
Proof.
  intros H. split.
  - split; intros [d Hd]; apply generate_student_document_inr in Hd as [Hr _];
      eexists; apply generate_student_document_ok.
    + by eapply renderable_perm.
    + by eapply renderable_perm.
  - intros d1 d2 H1 H2.
    apply generate_student_document_inr in H1 as [_ ->].
    apply generate_student_document_inr in H2 as [_ ->].
    unfold finished, document_blocks. cbn [body].
    rewrite !headings_cons_heading, !headings_flat_map. f_equal.
    apply flat_map_ext. intros c. by apply headings_category_section_perm.
Qed.

Lemma generate_student_document_outline_witness :
  ((∃ d1, generate_student_document scenario_B = inr d1) ↔
   (∃ d2, generate_student_document (reverse scenario_B) = inr d2)) ∧
  ∀ d1 d2,
    generate_student_document scenario_B = inr d1 →
    generate_student_document (reverse scenario_B) = inr d2 →
    headings (body d1) = headings (body d2).
Proof.
  apply (generate_student_document_outline scenario_B (reverse scenario_B)).
  symmetry. apply reverse_Permutation.
Defined.
